(** * ARCANEE blueprint checkers: traceability, placeholders and headers

    A shallow embedding of the Python scripts that check the blueprint
    corpus, and the properties of the corpus specification they decide:

    - [tools/ci/check_req_has_test_and_checklist.py]  (module [ReqCheck])
    - [_blueprint/tools/compose_validate.py]          (module [Compose])
    - [tools/ci/check_no_na_without_dec.py]           (module [NaCheck])
    - [_blueprint/tools/fix_headers.py], [check_headers.py] (module [Headers])

    Text is a Rocq [string]: a sequence of code points below 256.  The
    character classes of Python's [re] and [str] are the Unicode ones cut
    down to that range.  Files are given by their decoded contents, a
    missing file by [None]; decoding and I/O failures are not modelled. *)

From stdpp Require Import gmap strings list sorting pretty.
From Stdlib Require Import Ascii.

Local Open Scope nat_scope.

#[local] Arguments Ascii.eqb : simpl never.
#[local] Set Warnings "-clear-no-such-hyp".

(** ** Characters and strings as Python sees them *)

Module Py.

(** [\d] of [re] on [str]: a decimal digit. *)
Definition is_digit (c : ascii) : bool :=
  let n := nat_of_ascii c in (48 <=? n) && (n <=? 57).

(** [[A-Z]]. *)
Definition is_upper (c : ascii) : bool :=
  let n := nat_of_ascii c in (65 <=? n) && (n <=? 90).

(** [\w] of [re] on [str]: alphanumeric (alphabetic, decimal, digit or
    numeric) or the underscore. *)
Definition is_word (c : ascii) : bool :=
  let n := nat_of_ascii c in
  ((48 <=? n) && (n <=? 57)) || ((65 <=? n) && (n <=? 90)) || (n =? 95)
  || ((97 <=? n) && (n <=? 122))
  || (n =? 170) || (n =? 178) || (n =? 179) || (n =? 181)
  || (n =? 185) || (n =? 186) || ((188 <=? n) && (n <=? 190))
  || ((192 <=? n) && (n <=? 214)) || ((216 <=? n) && (n <=? 246))
  || (248 <=? n).

(** [str.isspace] of one character, what [str.strip()] removes. *)
Definition is_space (c : ascii) : bool :=
  let n := nat_of_ascii c in
  ((9 <=? n) && (n <=? 13)) || ((28 <=? n) && (n <=? 32))
  || (n =? 133) || (n =? 160).

(** The line boundaries of [str.splitlines()]. *)
Definition is_linebreak (c : ascii) : bool :=
  let n := nat_of_ascii c in
  ((10 <=? n) && (n <=? 13)) || ((28 <=? n) && (n <=? 30)) || (n =? 133).

Definition LF : ascii := ascii_of_nat 10.
Definition CR : ascii := ascii_of_nat 13.
Definition NL : string := String LF "".

(** [s.startswith(p)], returning what follows the prefix. *)
Fixpoint strip_prefix (p s : string) : option string :=
  match p with
  | "" => Some s
  | String a p' =>
      match s with
      | String b s' => if Ascii.eqb a b then strip_prefix p' s' else None
      | "" => None
      end
  end.

Definition startswith (s p : string) : bool :=
  match strip_prefix p s with Some _ => true | None => false end.

(** [p in s] for strings. *)
Fixpoint contains (p s : string) : bool :=
  startswith s p ||
  match s with
  | String _ s' => contains p s'
  | "" => false
  end.

(** The longest run of characters of a class at the head of a string, and
    the rest: a greedy [c+] or [c*]. *)
Fixpoint span (cls : ascii → bool) (s : string) : string * string :=
  match s with
  | String c r =>
      if cls c then let '(d, t) := span cls r in (String c d, t)
      else ("", s)
  | "" => ("", "")
  end.

(** Every character of the string is of the class. *)
Fixpoint all_chars (cls : ascii → bool) (s : string) : bool :=
  match s with
  | String c r => cls c && all_chars cls r
  | "" => true
  end.

(** The string starts with a character of the class. *)
Definition head_is (cls : ascii → bool) (s : string) : bool :=
  match s with
  | String c _ => cls c
  | "" => false
  end.

(** The last character of a string, and whether it is a word character:
    whether [\b] fails behind the string, before a word character. *)
Fixpoint last_char (s : string) : option ascii :=
  match s with
  | "" => None
  | String c "" => Some c
  | String _ r => last_char r
  end.

Definition word_before (pre : string) : bool :=
  match last_char pre with
  | Some c => is_word c
  | None => false
  end.

(** A string without line feed and carriage return. *)
Definition is_newline (c : ascii) : bool := Ascii.eqb c LF || Ascii.eqb c CR.

Definition single_line (s : string) : bool :=
  all_chars (λ c, negb (is_newline c)) s.

(** A text whose only line boundaries are line feeds and carriage returns,
    and one whose only line boundaries are line feeds. *)
Definition ordinary_breaks (s : string) : bool :=
  all_chars (λ c, implb (is_linebreak c) (is_newline c)) s.

Definition lf_breaks (s : string) : bool :=
  all_chars (λ c, implb (is_linebreak c) (Ascii.eqb c LF)) s.

(** A non-empty run of decimal digits, what [(\d+)] captures. *)
Definition numeral (d : string) : Prop := d ≠ "" ∧ all_chars is_digit d.

(** [int(s)] for a run of decimal digits. *)
Definition digit_value (c : ascii) : nat := nat_of_ascii c - 48.

Fixpoint int_from (acc : nat) (s : string) : nat :=
  match s with
  | String c r => int_from (10 * acc + digit_value c) r
  | "" => acc
  end.

Definition int (s : string) : nat := int_from 0 s.

(** [str(n)] and the format [{n:02d}]. *)
Definition str (n : nat) : string := pretty n.

Definition str02 (n : nat) : string :=
  if n <? 10 then "0" +:+ str n else str n.

(** [s.lstrip()], [s.rstrip()], [s.strip()]. *)
Fixpoint lstrip (s : string) : string :=
  match s with
  | String c r => if is_space c then lstrip r else s
  | "" => ""
  end.

Fixpoint rstrip (s : string) : string :=
  match s with
  | String c r =>
      match rstrip r with
      | "" => if is_space c then "" else String c ""
      | r' => String c r'
      end
  | "" => ""
  end.

Definition strip (s : string) : string := rstrip (lstrip s).

(** [sep.join(l)]. *)
Fixpoint join (sep : string) (l : list string) : string :=
  match l with
  | [] => ""
  | [x] => x
  | x :: l' => x +:+ sep +:+ join sep l'
  end.

(** A match of a pattern at the head of a string: what the match yields and
    how many characters it consumes.  The pattern also sees the character
    before the head, for [\b]. *)
Definition matcher (A : Type) : Type := option ascii → string → option (A * nat).

(** [re.finditer] and [re.findall] for a pattern that matches no empty
    string: the text is scanned from the left, a match is tried at every
    position, and after a match the scan resumes behind it.  [skip] counts
    the characters of the last match that are still to be passed, [prev] is
    the character before the head. *)
Fixpoint finditer_from {A} (m : matcher A) (prev : option ascii) (skip : nat)
    (s : string) : list A :=
  match s with
  | "" => []
  | String c r =>
      match skip with
      | S k => finditer_from m (Some c) k r
      | O =>
          match m prev s with
          | Some (g, n) => g :: finditer_from m (Some c) (pred n) r
          | None => finditer_from m (Some c) 0 r
          end
      end
  end.

Definition finditer {A} (m : matcher A) (s : string) : list A :=
  finditer_from m None 0 s.

(** A pattern whose matches stay within a line: behind the text a line feed
    and more text change no match. *)
Definition line_local {A} (m : matcher A) : Prop :=
  ∀ prev s r, m prev (s +:+ String LF r) = m prev s.

(** The number of characters between a string and one of its suffixes. *)
Definition consumed (s rest : string) : nat := String.length s - String.length rest.

(** An optional literal character, greedy: [c?] at the end of a pattern. *)
Definition skip_opt (c : ascii) (s : string) : string :=
  match s with
  | String b r => if Ascii.eqb b c then r else s
  | "" => ""
  end.

End Py.

(** ** tools/ci/check_req_has_test_and_checklist.py *)

Module ReqCheck.
Import Py.

(** [REQ-(\d+)] at the head of [s]: the digits and the rest. *)
Definition req_digits (s : string) : option (string * string) :=
  match strip_prefix "REQ-" s with
  | Some r =>
      match span is_digit r with
      | ("", _) => None
      | (d, t) => Some (d, t)
      end
  | None => None
  end.

(** Trying a pattern that starts with [\[?]: first with the bracket taken,
    then without it. *)
Definition opt_bracket {A} (body : string → option A) (s : string) : option A :=
  match s with
  | String "[" r =>
      match body r with
      | Some x => Some x
      | None => body s
      end
  | _ => body s
  end.

(** [\[?REQ-(\d+)\]?], yielding [int(m.group(1))]. *)
Definition single_pat : matcher nat := λ _ s,
  opt_bracket (λ s',
    match req_digits s' with
    | Some (d, t) => Some (int d, consumed s (skip_opt "]" t))
    | None => None
    end) s.

(** [\[?REQ-(\d+)\.\.(\d+)\]?], yielding [(int(m.group(1)), int(m.group(2)))]. *)
Definition range_pat : matcher (nat * nat) := λ _ s,
  opt_bracket (λ s',
    match req_digits s' with
    | Some (d1, t) =>
        match strip_prefix ".." t with
        | Some u =>
            match span is_digit u with
            | ("", _) => None
            | (d2, v) => Some ((int d1, int d2), consumed s (skip_opt "]" v))
            end
        | None => None
        end
    | None => None
    end) s.

(** A match of either pattern starts with a bracket or with an [R]. *)
Definition starts_req (c : ascii) : bool :=
  Ascii.eqb c "[" || Ascii.eqb c "R".

(** [range(start, end + 1)]. *)
Definition range_incl (a b : nat) : list nat := seq a (b + 1 - a).

(** The ordinals the first loop of [parse_ids] adds. *)
Definition single_ordinals (text : string) : list nat := finditer single_pat text.

(** The ordinals the second loop of [parse_ids] adds. *)
Definition range_ordinals (text : string) : list nat :=
  '(a, b) ← finditer range_pat text; range_incl a b.

Definition parse_ids (text : string) : gset nat :=
  list_to_set (single_ordinals text) ∪ list_to_set (range_ordinals text).

(** What a run of a script leaves behind: the lines it printed and its exit
    status. *)
Record outcome := Outcome { stdout : list string; status : nat }.

(** The [repr] of a list of strings that hold no quote or escape. *)
Definition repr_list (l : list string) : string :=
  "[" +:+ join ", " ((λ x, "'" +:+ x +:+ "'") <$> l) +:+ "]".

(** [sorted(list(X))] for a set of integers. *)
Definition sorted (X : gset nat) : list nat := merge_sort (≤) (elements X).

(** Step 1 of [main]: [defined_reqs] after all [*.md] files were read. *)
Definition defined_reqs (docs : list string) : gset nat :=
  ⋃ (parse_ids <$> docs).

(** Step 3 of [main]: [sorted(list(defined_reqs - covered_reqs))]. *)
Definition missing_list (docs : list string) (checklist : string) : list nat :=
  sorted (defined_reqs docs ∖ parse_ids checklist).

(** [main]: [docs] are the contents of the [*.md] files of the blueprint
    directory, [checklist] the content of [implementation_checklist.yaml],
    [None] when the file does not exist. *)
Definition main (docs : list string) (checklist : option string) : outcome :=
  let defined := defined_reqs docs in
  if decide (defined = ∅) then
    Outcome ["No REQs found in blueprint."] 0
  else
    match checklist with
    | None => Outcome ["::error::implementation_checklist.yaml not found!"] 1
    | Some c =>
        let missing := defined ∖ parse_ids c in
        if decide (missing = ∅) then
          Outcome ["SUCCESS: All " +:+ str (size defined)
                   +:+ " observed REQs are referenced in checklist."] 0
        else
          Outcome ["::error::Found " +:+ str (size missing)
                   +:+ " [REQ] IDs in Blueprint not referenced in Checklist: "
                   +:+ repr_list ((λ x, "REQ-" +:+ str x) <$> sorted missing)] 1
    end.

End ReqCheck.

(** ** _blueprint/tools/compose_validate.py *)

Module Compose.
Import Py.

(** [\b[A-Z]+-\d+\b], yielding the matched text.  The pattern starts and
    ends on a word character, so [\b] asks for no word character before the
    match and none behind it; giving back digits never helps. *)
Definition id_pat : matcher string := λ prev s,
  if (match prev with Some p => is_word p | None => false end) then None
  else
    match span is_upper s with
    | ("", _) => None
    | (k, String "-" r) =>
        match span is_digit r with
        | ("", _) => None
        | (d, t) =>
            if (match t with String c _ => is_word c | "" => false end)
            then None
            else Some (k +:+ "-" +:+ d, consumed s t)
        end
    | _ => None
    end.

Definition get_all_ids_from_text (text : string) : gset string :=
  list_to_set (finditer id_pat text).

(** The checklist as [yaml.safe_load] returns it, with the defaults of
    [.get] filled in: milestones, their steps, and the refs of a step. *)
Record step := Step { refs : list string }.
Record milestone := Milestone { steps : list step }.
Record checklist := Checklist { milestones : list milestone }.

(** [re.match(r"([A-Z]+)-(\d+)\.\.(\d+)", r)]: the prefix and the two bounds. *)
Definition range_match (r : string) : option (string * nat * nat) :=
  match span is_upper r with
  | ("", _) => None
  | (k, String "-" t) =>
      match span is_digit t with
      | ("", _) => None
      | (d1, u) =>
          match strip_prefix ".." u with
          | Some v =>
              match span is_digit v with
              | ("", _) => None
              | (d2, _) => Some (k, int d1, int d2)
              end
          | None => None
          end
      end
  | _ => None
  end.

Definition range_incl (a b : nat) : list nat := seq a (b + 1 - a).

(** What one entry of [refs] adds to [checklist_refs]. *)
Definition ref_keys (r : string) : list string :=
  match range_match r with
  | Some (prefix, a, b) =>
      i ← range_incl a b; [prefix +:+ "-" +:+ str i; prefix +:+ "-" +:+ str02 i]
  | None => [r]
  end.

(** [refs.append(r)] in step [si] of milestone [mi]: one more reference in
    the checklist. *)
Definition add_ref (mi si : nat) (r : string) (cl : checklist) : checklist :=
  Checklist
    (alter (λ ms, Milestone (alter (λ st, Step (refs st ++ [r])) si (steps ms)))
       mi (milestones cl)).

(** The Identifier of the data model that a key of [checklist_refs] or of
    [reqs] stands for: the kind and the ordinal of [KIND-NUMBER]. *)
Definition identifier_of (key : string) : option (string * nat) :=
  match span is_upper key with
  | ("", _) => None
  | (k, String "-" t) =>
      match span is_digit t with
      | ("", _) => None
      | (d, "") => Some (k, int d)
      | _ => None
      end
  | _ => None
  end.

Definition all_refs (cl : checklist) : list string :=
  ms ← milestones cl; st ← steps ms; refs st.

(** [checklist_refs] after the scan of the checklist; the empty set when
    the file does not exist. *)
Definition checklist_refs (cl : option checklist) : gset string :=
  match cl with
  | Some c => list_to_set (all_refs c ≫= ref_keys)
  | None => ∅
  end.

(** [reqs] and [tests] after the scan of the chapters. *)
Definition with_prefix (p : string) (docs : list string) : gset string :=
  ⋃ ((λ d, filter (λ id, startswith id p) (get_all_ids_from_text d)) <$> docs).

Definition reqs (docs : list string) : gset string := with_prefix "REQ-" docs.
Definition tests (docs : list string) : gset string := with_prefix "TEST-" docs.

Section traceability.
(** The order in which [for req in reqs] meets the elements of a set of
    strings.  It follows the hashes of the strings, which CPython salts
    anew for every process. *)
Variable iter : gset string → list string.

(** [missing_checklist] at the end of the loop. *)
Definition missing_checklist (docs : list string) (cl : option checklist)
    : list string :=
  filter (λ req, req ∉ checklist_refs cl) (iter (reqs docs)).

(** [validate_traceability(args)]: the lines printed and the value
    returned; [trace] is [args.trace]. *)
Definition validate_traceability (trace : bool) (docs : list string)
    (cl : option checklist) : list string * bool :=
  let missing := missing_checklist docs cl in
  let banner := "Validating traceability (REQ -> TEST/Checklist)..." in
  match missing with
  | [] => ([banner; "Traceability: OK"], true)
  | _ =>
      ([banner;
        "FAIL: The following REQs are missing from implementation_checklist.yaml: "
          +:+ str (length missing)]
       ++ ((λ r, "  - " +:+ r) <$> take 5 missing)
       ++ (if trace then [] else ["  (Run with --trace for full analysis)"]),
       false)
  end.
End traceability.

End Compose.

(** ** tools/ci/check_no_na_without_dec.py *)

Module NaCheck.
Import Py.

(** [re.search(r'\[DEC-\d+\]', line)] finds something. *)
Fixpoint has_dec (s : string) : bool :=
  match strip_prefix "[DEC-" s with
  | Some r =>
      match span is_digit r with
      | ("", _) => false
      | (_, String "]" _) => true
      | _ => false
      end
  | None => false
  end
  || match s with
     | String _ r => has_dec r
     | "" => false
     end.

(** The line reaches the [print] of the loop body. *)
Definition flagged (line : string) : bool :=
  if contains "N/A" line then
    if contains "[TEST-02]" line || contains "`N/A`" line then false
    else negb (has_dec line)
  else false.

Record violation := Violation { file : string; lineno : nat; text : string }.

(** The loop over [enumerate(lines)], from index [idx] on. *)
Fixpoint scan_lines (f_path : string) (idx : nat) (lines : list string)
    : list violation :=
  match lines with
  | [] => []
  | line :: rest =>
      (if flagged line then [Violation f_path (idx + 1) (strip line)] else [])
      ++ scan_lines f_path (S idx) rest
  end.

Definition render (v : violation) : string :=
  "::error file=" +:+ file v +:+ ",line=" +:+ str (lineno v)
  +:+ "::Found N/A without [DEC-XX] justification: " +:+ text v.

(** [main]: [files] are the globbed paths with what [readlines()] gives. *)
Definition violations (files : list (string * list string)) : list violation :=
  '(f_path, lines) ← files; scan_lines f_path 0 lines.

Definition main (files : list (string * list string)) : ReqCheck.outcome :=
  let vs := violations files in
  if 0 <? length vs then ReqCheck.Outcome (render <$> vs) 1
  else ReqCheck.Outcome ["SUCCESS: No unjustified N/A markers found."] 0.

End NaCheck.

(** ** _blueprint/tools/fix_headers.py and check_headers.py *)

Module Headers.
Import Py.

(** Reading in text mode: [\r\n] and [\r] arrive as [\n]. *)
Fixpoint universal_newlines (s : string) : string :=
  match s with
  | "" => ""
  | String c r =>
      if Ascii.eqb c CR then
        String LF
          match r with
          | String c2 r2 =>
              if Ascii.eqb c2 LF then universal_newlines r2
              else universal_newlines r
          | "" => ""
          end
      else String c (universal_newlines r)
  end.

(** [f.read()] and the first [f.readline()] of a file opened for reading. *)
Definition read (raw : string) : string := universal_newlines raw.

Fixpoint first_line_of (s : string) : string :=
  match s with
  | "" => ""
  | String c r => if Ascii.eqb c LF then String c "" else String c (first_line_of r)
  end.

Definition readline (raw : string) : string := first_line_of (read raw).

(** [content.splitlines()]. *)
Fixpoint splitlines (s : string) : list string :=
  match s with
  | "" => []
  | String c r =>
      if is_linebreak c then
        "" :: match r with
              | String c2 r2 =>
                  if Ascii.eqb c CR && Ascii.eqb c2 LF then splitlines r2
                  else splitlines r
              | "" => []
              end
      else
        match splitlines r with
        | [] => [String c ""]
        | l :: ls => String c l :: ls
        end
  end.

Definition endswith (s p : string) : bool :=
  startswith (String.rev s) (String.rev p).

(** [l.insert(i, x)]. *)
Definition list_insert_at {A} (i : nat) (x : A) (l : list A) : list A :=
  take i l ++ x :: drop i l.

Definition expected (rel_path : string) : string :=
  "<!-- " +:+ rel_path +:+ " -->".

(** The body of the loop of [fix_headers] for one [.md] file: what is
    written to the file, [None] when it is left as it is. *)
Definition fix_file (rel_path raw : string) : option string :=
  let content := read raw in
  let lines := splitlines content in
  match lines with
  | [] => Some (expected rel_path +:+ NL)
  | l0 :: _ =>
      let first_line := strip l0 in
      if decide (first_line ≠ expected rel_path) then
        let lines' :=
          if startswith first_line "<!--" && endswith first_line "-->" then
            <[0 := expected rel_path]> lines
          else
            let lines1 := list_insert_at 0 (expected rel_path) lines in
            if (1 <? length lines1)
               && bool_decide (strip (default "" (lines1 !! 1)) ≠ "")
            then list_insert_at 1 "" lines1
            else lines1
        in Some (join NL lines' +:+ NL)
      else None
  end.

(** The body of the loop of [check_headers] for one [.md] file. *)
Definition check_file (rel_path raw : string) : bool :=
  bool_decide (strip (readline raw) = expected rel_path).

(** The walk: the files below the root with their paths relative to the
    working directory. *)
Definition is_md (rel_path : string) : bool := endswith rel_path ".md".

Definition fix_headers (tree : list (string * string)) : list (string * string) :=
  (λ '(p, raw), if is_md p then (p, default raw (fix_file p raw)) else (p, raw))
    <$> tree.

Definition check_headers (tree : list (string * string)) : bool :=
  forallb (λ '(p, raw), if is_md p then check_file p raw else true) tree.

End Headers.

(** ** What [yaml.safe_load] returns, and the exceptions of Python *)

#[local] Set Warnings "-register-all".

Module Yaml.
Import Py.

(** A loaded document as far as the scripts look at it: [YScalar] stands for
    the values that are neither iterable nor have [.get] (numbers, booleans,
    timestamps), [YSeq] for lists (and sets, by their elements), [YMap] for
    a dict by its items. *)
Inductive yaml :=
  | YNull
  | YScalar
  | YStr (s : string)
  | YSeq (l : list yaml)
  | YMap (items : list (yaml * yaml)).

Inductive exn := AttributeError | TypeError | LoadError.

Definition result (A : Type) : Type := (exn + A)%type.

Definition raise {A} (e : exn) : result A := inl e.

Definition rbind {A B} (m : result A) (f : A → result B) : result B :=
  match m with
  | inl e => inl e
  | inr x => f x
  end.

(** A loop whose body may raise: the first exception ends it. *)
Fixpoint for_each {A B} (f : A → result (list B)) (l : list A) : result (list B) :=
  match l with
  | [] => inr []
  | x :: l' => rbind (f x) (λ ys, rbind (for_each f l') (λ zs, inr (ys ++ zs)))
  end.

(** [k == y] for a string [k]. *)
Definition is_key (k : string) (y : yaml) : bool :=
  match y with
  | YStr s => String.eqb s k
  | _ => false
  end.

Fixpoint lookup_items (k : string) (items : list (yaml * yaml)) : option yaml :=
  match items with
  | [] => None
  | (y, v) :: rest => if is_key k y then Some v else lookup_items k rest
  end.

(** [d.get(k, default)]: only a dict has [get]. *)
Definition py_get (d : yaml) (k : string) (default : yaml) : result yaml :=
  match d with
  | YMap items => inr (from_option id default (lookup_items k items))
  | _ => raise AttributeError
  end.

(** The one-character strings that iterating a string yields. *)
Fixpoint chars_of (s : string) : list string :=
  match s with
  | "" => []
  | String c r => String c "" :: chars_of r
  end.

(** The value is a string, and the string it is. *)
Definition is_str (y : yaml) : bool :=
  match y with
  | YStr _ => true
  | _ => false
  end.

Definition str_of (y : yaml) : string :=
  match y with
  | YStr s => s
  | _ => ""
  end.

Definition is_map (y : yaml) : bool :=
  match y with
  | YMap _ => true
  | _ => false
  end.

(** [for x in y]: what the loop meets. *)
Definition py_iter (y : yaml) : result (list yaml) :=
  match y with
  | YSeq l => inr l
  | YMap items => inr (fst <$> items)
  | YStr s => inr (YStr <$> chars_of s)
  | YNull | YScalar => raise TypeError
  end.

(** [k in y] for a string [k]. *)
Definition py_in (k : string) (y : yaml) : result bool :=
  match y with
  | YMap items => inr (existsb (is_key k) (fst <$> items))
  | YSeq l => inr (existsb (is_key k) l)
  | YStr s => inr (contains k s)
  | YNull | YScalar => raise TypeError
  end.

End Yaml.

(** ** compose_validate.py: the checklist file, the other rules and [main] *)

Module ComposeMain.
Import Py Yaml.

(** The body of [for r in refs]: [re.match] wants a string. *)
Definition ref_entry (r : yaml) : result (list string) :=
  match r with
  | YStr s => inr (Compose.ref_keys s)
  | _ => raise TypeError
  end.

Definition step_keys (step : yaml) : result (list string) :=
  rbind (py_get step "refs" (YSeq [])) (λ refs,
  rbind (py_iter refs) (for_each ref_entry)).

Definition milestone_keys (ms : yaml) : result (list string) :=
  rbind (py_get ms "steps" (YSeq [])) (λ steps,
  rbind (py_iter steps) (for_each step_keys)).

(** The scan of the loaded checklist: what is added to [checklist_refs], in
    the order of the loops, or the exception that ends the scan. *)
Definition checklist_keys (cl_data : yaml) : result (list string) :=
  rbind (py_get cl_data "implementation_checklist" (YMap [])) (λ impl_cl,
  rbind (py_get impl_cl "milestones" (YSeq [])) (λ milestones,
  rbind (py_iter milestones) (for_each milestone_keys))).

(** The checklist file: absent, unreadable for [load_yaml], or loaded. *)
Inductive yaml_file :=
  | Absent
  | Unloadable (message : string)
  | Loaded (data : yaml).

Definition checklist_file_refs (f : yaml_file) : result (gset string) :=
  match f with
  | Absent => inr ∅
  | Unloadable _ => raise LoadError
  | Loaded data => rbind (checklist_keys data) (λ ks, inr (list_to_set ks))
  end.

(** A checklist of the expected shape as a loaded document. *)
Definition yaml_of_step (st : Compose.step) : yaml :=
  YMap [(YStr "refs", YSeq (YStr <$> Compose.refs st))].

Definition yaml_of_milestone (ms : Compose.milestone) : yaml :=
  YMap [(YStr "steps", YSeq (yaml_of_step <$> Compose.steps ms))].

Definition yaml_of_checklist (cl : Compose.checklist) : yaml :=
  YMap [(YStr "implementation_checklist",
         YMap [(YStr "milestones",
                YSeq (yaml_of_milestone <$> Compose.milestones cl))])].

(** What a rule leaves behind: the lines it printed, and the value it
    returned or the exception that left it. *)
Definition rule_result : Type := list string * result bool.

(** [validate_traceability(args)] from the checklist file. *)
Definition validate_traceability (iter : gset string → list string)
    (trace : bool) (docs : list string) (f : yaml_file) : rule_result :=
  let banner := "Validating traceability (REQ -> TEST/Checklist)..." in
  match checklist_file_refs f with
  | inl e => ([banner], inl e)
  | inr checklist_refs =>
      let missing := filter (λ req, req ∉ checklist_refs) (iter (Compose.reqs docs)) in
      match missing with
      | [] => ([banner; "Traceability: OK"], inr true)
      | _ =>
          ([banner;
            "FAIL: The following REQs are missing from implementation_checklist.yaml: "
              +:+ str (length missing)]
           ++ ((λ r, "  - " +:+ r) <$> take 5 missing)
           ++ (if trace then [] else ["  (Run with --trace for full analysis)"]),
           inr false)
      end
  end.

(** The facts of the file system below [BLUEPRINT_ROOT] that
    [validate_structure] asks for. *)
Record fs := Fs {
  root_is_dir : bool;
  is_dir : string → bool;
  path_exists : string → bool
}.

Definition MANDATORY_DIRS : list string := ["project"; "rules"; "knowledge"; "tools"].
Definition MANDATORY_FILES : list string := ["id_registry.yaml"; "rules/ci_gates.yaml"].

(** [validate_structure()]; [root] is the text of [BLUEPRINT_ROOT]. *)
Definition validate_structure (root : string) (f : fs) : list string * bool :=
  let banner := "Validating directory structure..." in
  if negb (root_is_dir f) then
    ([banner; "FAIL: " +:+ root +:+ " missing."], false)
  else
    match List.find (λ d, negb (is_dir f d)) MANDATORY_DIRS with
    | Some d => ([banner; "FAIL: Directory " +:+ d +:+ " missing."], false)
    | None =>
        match List.find (λ x, negb (path_exists f x)) MANDATORY_FILES with
        | Some x => ([banner; "FAIL: File " +:+ x +:+ " missing."], false)
        | None => ([banner; "Structure: OK"], true)
        end
    end.

(** [validate_ids()]; [registry] is what [load_yaml] gives for
    [id_registry.yaml], or the text of the exception it raises. *)
Definition validate_ids (registry : string + yaml) : rule_result :=
  let banner := "Validating ID Registry uniqueness..." in
  match registry with
  | inl e => ([banner; "FAIL: Could not load id_registry: " +:+ e], inr false)
  | inr data =>
      match py_in "registry" data with
      | inl e => ([banner], inl e)
      | inr true => ([banner; "ID Registry: OK"], inr true)
      | inr false =>
          ([banner; "FAIL: id_registry.yaml missing 'registry' key."], inr false)
      end
  end.

(** [s.replace('./', '')]. *)
Fixpoint remove_dot_slash (s : string) : string :=
  match s with
  | String "." (String "/" r) => remove_dot_slash r
  | String c r => String c (remove_dot_slash r)
  | "" => ""
  end.

(** [validate_header_rule(file_path)] for a file that can be read;
    [rel_path] is the path relative to the repository root, [raw] the
    content of the file. *)
Definition validate_header_rule (rel_path raw : string) : list string * bool :=
  let first_line := strip (Headers.readline raw) in
  let expected := Headers.expected rel_path in
  if decide (first_line ≠ expected) then
    if decide (remove_dot_slash first_line ≠ remove_dot_slash expected) then
      (["Header mismatch in " +:+ rel_path;
        "  Expected: " +:+ expected;
        "  Found:    " +:+ first_line], false)
    else ([], true)
  else ([], true).

(** The chapters that [validate_traceability] reads: the [*.md] files right
    below [project], among the files with their paths below
    [BLUEPRINT_ROOT]. *)
Definition project_docs (md_files : list (string * string)) : list string :=
  omap (λ '(p, raw),
    match strip_prefix "project/" p with
    | Some name => if contains "/" name then None else Some (Headers.read raw)
    | None => None
    end) md_files.

(** A run of the script: the lines printed, the exit status, and the
    exception that ended it, if one did. *)
Record run := Run { printed : list string; exit_status : nat; raised : option exn }.

(** [main()].  [root] is the text of [BLUEPRINT_ROOT] and [bp_name] its last
    component, [md_files] are the files that [rglob("*.md")] finds with
    their paths below [BLUEPRINT_ROOT]. *)
Definition main (iter : gset string → list string) (trace : bool)
    (root bp_name : string) (f : fs) (registry : string + yaml)
    (md_files : list (string * string)) (checklist : yaml_file) : run :=
  let '(o1, b1) := validate_structure root f in
  match validate_ids registry with
  | (o2, inl e) => Run (o1 ++ o2) 1 (Some e)
  | (o2, inr b2) =>
      let hs := (λ '(p, raw), validate_header_rule (bp_name +:+ "/" +:+ p) raw)
                  <$> md_files in
      let o3 := "Validating markdown headers..." :: concat (fst <$> hs) in
      let b3 := forallb snd hs in
      match validate_traceability iter trace (project_docs md_files) checklist with
      | (o4, inl e) => Run (o1 ++ o2 ++ o3 ++ o4) 1 (Some e)
      | (o4, inr b4) =>
          if b1 && b2 && b3 && b4 then
            Run (o1 ++ o2 ++ o3 ++ o4 ++ ["Validation PASSED."]) 0 None
          else
            Run (o1 ++ o2 ++ o3 ++ o4 ++ ["Validation FAILED."]) 1 None
      end
  end.

End ComposeMain.

(** ** fix_headers.py and check_headers.py: what is printed *)

Module HeaderTools.
Import Py.

(** [fix_headers(root_dir)] over the [.md] files of the walk: the files as
    they are left, and the lines printed. *)
Definition fix_report (tree : list (string * string)) : list string :=
  omap (λ '(p, raw),
    if Headers.is_md p then
      match Headers.fix_file p raw with
      | Some _ => Some ("Fixed: " +:+ p)
      | None => None
      end
    else None) tree.

Definition fixed_count (tree : list (string * string)) : nat :=
  length (fix_report tree).

Definition fix_headers_output (tree : list (string * string)) : list string :=
  fix_report tree ++ ["Total files fixed: " +:+ str (fixed_count tree)].

(** What [check_headers(root_dir)] prints for one [.md] file. *)
Definition check_file_report (rel_path raw : string) : list string :=
  if Headers.check_file rel_path raw then []
  else ["Header mismatch in " +:+ rel_path;
        "  Expected: " +:+ Headers.expected rel_path;
        "  Found:    " +:+ strip (Headers.readline raw)].

Definition check_report (tree : list (string * string)) : list string :=
  concat ((λ '(p, raw), if Headers.is_md p then check_file_report p raw else [])
            <$> tree).

(** check_headers.py run as a script. *)
Definition check_main (tree : list (string * string)) : ReqCheck.outcome :=
  if Headers.check_headers tree then
    ReqCheck.Outcome (check_report tree ++ ["Markdown headers: OK"]) 0
  else ReqCheck.Outcome (check_report tree) 1.

End HeaderTools.

(** * Properties *)

Import Py.

(** ** Sorting a set *)

Section sorted_facts.
Import ReqCheck.

Lemma elem_of_sorted (X : gset nat) n : n ∈ sorted X ↔ n ∈ X.
Proof.
  unfold sorted. rewrite merge_sort_Permutation. apply elem_of_elements.
Qed.

Lemma length_sorted (X : gset nat) : length (sorted X) = size X.
Proof. unfold sorted. by rewrite merge_sort_Permutation. Qed.

Lemma sorted_nil (X : gset nat) : sorted X = [] ↔ X = ∅.
Proof.
  split.
  - intros H. apply leibniz_equiv, size_empty_inv. by rewrite <- length_sorted, H.
  - intros ->. apply length_zero_iff_nil. by rewrite length_sorted.
Qed.

(** [sorted(list(X))] does not depend on the order in which the set hands
    out its elements. *)
Lemma sort_order_independent (l1 l2 : list nat) :
  l1 ≡ₚ l2 → merge_sort (≤) l1 = merge_sort (≤) l2.
Proof.
  intros Hp. apply (Sorted_unique (≤)).
  - apply Sorted_merge_sort; apply _.
  - apply Sorted_merge_sort; apply _.
  - by rewrite !merge_sort_Permutation.
Qed.

Lemma elem_of_defined_reqs docs n :
  n ∈ defined_reqs docs ↔ ∃ d, d ∈ docs ∧ n ∈ parse_ids d.
Proof.
  unfold defined_reqs. rewrite elem_of_union_list. split.
  - intros (X & HX & Hn). apply list_elem_of_fmap in HX as (d & -> & Hd). eauto.
  - intros (d & Hd & Hn). exists (parse_ids d). split; [|done].
    apply list_elem_of_fmap. eauto.
Qed.

Lemma elem_of_missing_list docs c n :
  n ∈ missing_list docs c ↔ n ∈ defined_reqs docs ∧ n ∉ parse_ids c.
Proof. unfold missing_list. rewrite elem_of_sorted. set_solver. Qed.
End sorted_facts.

(** ** Strings *)

(** Unfolding [+:+] on a string whose head is known. *)
Ltac sapp :=
  change (@String.append) with
    (fix append (s1 s2 : string) {struct s1} : string :=
       match s1 with
       | "" => s2
       | String c s1' => String c (append s1' s2)
       end);
  cbn fix match beta;
  change (fix append (s1 s2 : string) {struct s1} : string :=
       match s1 with
       | "" => s2
       | String c s1' => String c (append s1' s2)
       end) with (@String.append).

Section string_facts.

Lemma app_cons_s x (a b : string) : String x a +:+ b = String x (a +:+ b).
Proof. done. Qed.

Lemma app_nil_l_s (b : string) : "" +:+ b = b.
Proof. done. Qed.

Lemma app_assoc_s (a b c : string) : (a +:+ b) +:+ c = a +:+ (b +:+ c).
Proof. induction a as [|x a IH]; sapp; [done|by rewrite IH]. Qed.

Lemma app_nil_r_s (a : string) : a +:+ "" = a.
Proof. induction a as [|x a IH]; sapp; [done|by rewrite IH]. Qed.

Lemma length_app_s (a b : string) :
  String.length (a +:+ b) = String.length a + String.length b.
Proof. induction a as [|x a IH]; sapp; simpl; [done|by rewrite IH]. Qed.

Lemma strip_prefix_app p s : strip_prefix p (p +:+ s) = Some s.
Proof.
  induction p as [|a p IH]; sapp; simpl; [done|]. by rewrite Ascii.eqb_refl.
Qed.

Lemma span_app cls a b :
  all_chars cls a → head_is cls b = false → span cls (a +:+ b) = (a, b).
Proof.
  intros Ha Hb. induction a as [|x a IH]; sapp; simpl in *.
  - destruct b as [|y b]; simpl in *; [done|]. by rewrite Hb.
  - apply andb_True in Ha as [Hx Ha]. apply Is_true_true in Hx.
    by rewrite Hx, IH.
Qed.

Lemma span_all cls a : all_chars cls a → span cls a = (a, "").
Proof.
  intros Ha. rewrite <- (app_nil_r_s a) at 1. by apply span_app.
Qed.

Lemma int_from_app acc a b : int_from acc (a +:+ b) = int_from (int_from acc a) b.
Proof.
  revert acc. induction a as [|x a IH]; intros acc; sapp; simpl; [done|apply IH].
Qed.

Lemma int_leading_zero d : int ("0" +:+ d) = int d.
Proof. done. Qed.

Lemma all_chars_app cls a b :
  all_chars cls (a +:+ b) = all_chars cls a && all_chars cls b.
Proof.
  induction a as [|x a IH]; sapp; simpl; [done|]. by rewrite IH, andb_assoc.
Qed.

(** [str] writes decimal numerals and [int] reads them back. *)
Lemma pretty_N_go_app x s : pretty_N_go x s = pretty_N_go x "" +:+ s.
Proof.
  revert s. induction (N.lt_wf_0 x) as [x _ IH]; intros s.
  destruct (decide (x = 0)%N) as [->|Hx]; [done|].
  assert (x `div` 10 < x)%N as Hlt by (apply N.div_lt; lia).
  rewrite !(pretty_N_go_step x) by lia.
  rewrite (IH _ Hlt (String _ s)), (IH _ Hlt (String _ "")).
  by rewrite app_assoc_s.
Qed.

Lemma pretty_N_char_digit x :
  (x < 10)%N →
  is_digit (pretty_N_char x) = true ∧ digit_value (pretty_N_char x) = N.to_nat x.
Proof.
  intros Hx.
  assert (x = 0 ∨ x = 1 ∨ x = 2 ∨ x = 3 ∨ x = 4 ∨ x = 5 ∨ x = 6
          ∨ x = 7 ∨ x = 8 ∨ x = 9)%N as Hc by lia.
  repeat destruct Hc as [->|Hc]; try subst x; done.
Qed.

Lemma pretty_N_go_spec x :
  all_chars is_digit (pretty_N_go x "") = true
  ∧ int_from 0 (pretty_N_go x "") = N.to_nat x.
Proof.
  induction (N.lt_wf_0 x) as [x _ IH].
  destruct (decide (x = 0)%N) as [->|Hx]; [done|].
  rewrite (pretty_N_go_step x) by lia. rewrite pretty_N_go_app.
  destruct (IH (x `div` 10)%N) as [Hd Hi]; [apply N.div_lt; lia|].
  destruct (pretty_N_char_digit (x `mod` 10)%N) as [Hc Hv];
    [apply N.mod_lt; lia|].
  split.
  - rewrite all_chars_app, Hd. simpl. by rewrite Hc.
  - rewrite int_from_app, Hi. simpl. rewrite Hv.
    pose proof (N.div_mod x 10). lia.
Qed.

Lemma str_numeral n : numeral (str n).
Proof.
  unfold str, pretty, pretty_nat, pretty, pretty_N.
  case_decide as Hn; [done|]. split.
  - intros He. pose proof (pretty_N_go_spec (N.of_nat n)) as [_ Hi].
    rewrite He in Hi. simpl in Hi. lia.
  - apply Is_true_true, pretty_N_go_spec.
Qed.

Lemma int_str n : int (str n) = n.
Proof.
  unfold int, str, pretty, pretty_nat, pretty, pretty_N.
  case_decide as Hn; [by assert (n = 0) as -> by lia|].
  destruct (pretty_N_go_spec (N.of_nat n)) as [_ ->]. lia.
Qed.

Lemma int_str02 n : int (str02 n) = n.
Proof.
  unfold str02. destruct (n <? 10); [|apply int_str].
  rewrite int_leading_zero. apply int_str.
Qed.

Lemma str02_numeral n : numeral (str02 n).
Proof.
  unfold str02. destruct (n <? 10); [|apply str_numeral].
  split; [done|]. simpl. apply str_numeral.
Qed.

End string_facts.

(** ** The coverage check of the CI script *)

Section req_check.
Import ReqCheck.

Lemma main_no_reqs docs checklist :
  defined_reqs docs = ∅ →
  main docs checklist = Outcome ["No REQs found in blueprint."] 0.
Proof. intros Hd. unfold main. by rewrite decide_True. Qed.

Lemma main_no_checklist docs :
  defined_reqs docs ≠ ∅ →
  main docs None = Outcome ["::error::implementation_checklist.yaml not found!"] 1.
Proof. intros Hd. unfold main. by rewrite decide_False. Qed.

(** The outcome of [main] when the checklist exists, by the list of the
    missing ordinals. *)
Lemma main_checklist docs c :
  defined_reqs docs ≠ ∅ →
  main docs (Some c) =
    match missing_list docs c with
    | [] => Outcome ["SUCCESS: All " +:+ str (size (defined_reqs docs))
                     +:+ " observed REQs are referenced in checklist."] 0
    | l => Outcome ["::error::Found " +:+ str (length l)
                    +:+ " [REQ] IDs in Blueprint not referenced in Checklist: "
                    +:+ repr_list ((λ x, "REQ-" +:+ str x) <$> l)] 1
    end.
Proof.
  intros H. unfold main, missing_list. rewrite decide_False by done.
  destruct (decide (defined_reqs docs ∖ parse_ids c = ∅)) as [He|He].
  - by rewrite He.
  - rewrite <- length_sorted.
    destruct (sorted _) eqn:Hs; [|done].
    by apply sorted_nil in Hs.
Qed.

Lemma main_status_0 docs c :
  status (main docs (Some c)) = 0 ↔ missing_list docs c = [].
Proof.
  destruct (decide (defined_reqs docs = ∅)) as [He|He].
  - rewrite main_no_reqs by done. unfold missing_list. rewrite He.
    split; [intros _|done]. apply sorted_nil. set_solver.
  - rewrite main_checklist by done. by destruct (missing_list docs c).
Qed.

(** *** The scan and the two patterns on one range token *)

Lemma finditer_from_skip_all {A} (m : matcher A) prev k s :
  String.length s ≤ k → finditer_from m prev k s = [].
Proof.
  revert prev k. induction s as [|c s IH]; intros prev k Hk; simpl in *; [done|].
  destruct k as [|k]; [lia|]. apply IH. lia.
Qed.

Lemma finditer_from_skip_app {A} (m : matcher A) prev a b :
  ∃ prev', finditer_from m prev (String.length a) (a +:+ b)
           = finditer_from m prev' 0 b.
Proof.
  revert prev. induction a as [|c a IH]; intros prev; sapp; simpl.
  - by exists prev.
  - apply IH.
Qed.

Lemma finditer_from_no_match {A} (m : matcher A) (P : ascii → bool) prev k s :
  (∀ p t, head_is P t = false → m p t = None) →
  all_chars (λ c, negb (P c)) s →
  finditer_from m prev k s = [].
Proof.
  intros Hm. revert prev k.
  induction s as [|c s IH]; intros prev k Hs; simpl in *; [done|].
  apply andb_True in Hs as [Hc Hs]. destruct k as [|k]; [|by apply IH].
  rewrite Hm; [by apply IH|]. simpl. by apply negb_True, Is_true_false in Hc.
Qed.

Lemma req_digits_numeral d t :
  numeral d → head_is is_digit t = false →
  req_digits ("REQ-" +:+ d +:+ t) = Some (d, t).
Proof.
  intros [Hne Hd] Ht. unfold req_digits.
  rewrite strip_prefix_app, span_app by done. by destruct d.
Qed.

Lemma req_digits_head t : head_is starts_req t = false → req_digits t = None.
Proof.
  destruct t as [|c t]; [done|]. unfold req_digits, starts_req. simpl.
  intros [_ H]%orb_false_iff. rewrite Ascii.eqb_sym in H. by rewrite H.
Qed.

Lemma opt_bracket_head {A} (body : string → option A) t :
  (∀ u, req_digits u = None → body u = None) →
  head_is starts_req t = false → opt_bracket body t = None.
Proof.
  intros Hb Ht. pose proof (req_digits_head t Ht) as Hn.
  destruct t as [|c t]; simpl in *; [by apply Hb|].
  unfold starts_req in Ht. apply orb_false_iff in Ht as [Hc _].
  unfold opt_bracket.
  destruct (ascii_dec c "[") as [->|Hne]; [by rewrite Ascii.eqb_refl in Hc|].
  assert (∀ X (x y : X), match c with "["%char => x | _ => y end = y) as Hmatch.
  { intros X x y. destruct c as [[] [] [] [] [] [] [] []]; done. }
  generalize (Hb (String c t) Hn).
  destruct c as [[] [] [] [] [] [] [] []]; done.
Qed.

Lemma single_pat_head p t : head_is starts_req t = false → single_pat p t = None.
Proof.
  intros Ht. unfold single_pat. apply opt_bracket_head; [|done].
  by intros u ->.
Qed.

Lemma range_pat_head p t : head_is starts_req t = false → range_pat p t = None.
Proof.
  intros Ht. unfold range_pat. apply opt_bracket_head; [|done].
  by intros u ->.
Qed.

Lemma numeral_no_req d :
  all_chars is_digit d → all_chars (λ c, negb (starts_req c)) d.
Proof.
  induction d as [|c d IH]; simpl; [done|].
  intros [Hc Hd]%andb_True. apply andb_True. split; [|by apply IH].
  destruct c as [[] [] [] [] [] [] [] []]; done.
Qed.

Lemma head_dots t : head_is is_digit (".." +:+ t) = false.
Proof. done. Qed.

Lemma opt_bracket_req {A} (body : string → option A) t :
  opt_bracket body ("REQ-" +:+ t) = body ("REQ-" +:+ t).
Proof. done. Qed.

Lemma finditer_req {A} (m : matcher A) t :
  finditer m ("REQ-" +:+ t) =
    match m None ("REQ-" +:+ t) with
    | Some (g, n) => g :: finditer_from m (Some "R"%char) (pred n) ("EQ-" +:+ t)
    | None => finditer_from m (Some "R"%char) 0 ("EQ-" +:+ t)
    end.
Proof. done. Qed.

(** On the text of one range token the range pattern matches once, the whole
    token, and the single pattern matches once, the token up to its dots. *)
Lemma range_pat_token d1 d2 :
  numeral d1 → numeral d2 →
  finditer range_pat ("REQ-" +:+ d1 +:+ ".." +:+ d2) = [(int d1, int d2)].
Proof.
  intros H1 H2.
  assert (range_pat None ("REQ-" +:+ d1 +:+ ".." +:+ d2)
          = Some ((int d1, int d2), 4 + String.length (d1 +:+ ".." +:+ d2))) as Hm.
  { unfold range_pat. rewrite opt_bracket_req.
    rewrite (req_digits_numeral d1 (".." +:+ d2)) by done.
    rewrite strip_prefix_app. destruct H2 as [Hne Hd].
    rewrite span_all by done. destruct d2; [done|].
    unfold consumed. rewrite length_app_s. simpl. do 2 f_equal; lia. }
  rewrite finditer_req, Hm. f_equal.
  apply finditer_from_skip_all. rewrite length_app_s. simpl. lia.
Qed.

Lemma single_pat_token d1 d2 :
  numeral d1 → numeral d2 →
  finditer single_pat ("REQ-" +:+ d1 +:+ ".." +:+ d2) = [int d1].
Proof.
  intros H1 H2.
  assert (single_pat None ("REQ-" +:+ d1 +:+ ".." +:+ d2)
          = Some (int d1, 4 + String.length d1)) as Hm.
  { unfold single_pat. rewrite opt_bracket_req.
    rewrite (req_digits_numeral d1 (".." +:+ d2)) by done.
    unfold consumed. change (skip_opt "]" (".." +:+ d2)) with (".." +:+ d2).
    rewrite !length_app_s. simpl. do 2 f_equal; lia. }
  rewrite finditer_req, Hm. f_equal.
  change (finditer_from single_pat (Some "R"%char)
            (String.length ("EQ-" +:+ d1)) (("EQ-" +:+ d1) +:+ ".." +:+ d2) = []).
  destruct (finditer_from_skip_app single_pat (Some "R"%char) ("EQ-" +:+ d1)
              (".." +:+ d2)) as [prev' ->].
  apply (finditer_from_no_match _ starts_req); [apply single_pat_head|].
  change (".." +:+ d2) with (String "." (String "." d2)). simpl.
  apply numeral_no_req. by destruct H2.
Qed.

(** *** A line added to the checklist *)

Lemma strip_prefix_line p u r :
  all_chars (λ c, negb (Ascii.eqb c LF)) p →
  strip_prefix p (u +:+ String LF r)
  = (λ t, t +:+ String LF r) <$> strip_prefix p u.
Proof.
  revert u. induction p as [|a p IH]; intros u Hp; [done|].
  simpl in Hp. apply andb_True in Hp as [Ha Hp].
  destruct u as [|b u].
  - simpl. change ("" +:+ String LF r) with (String LF r). simpl.
    apply negb_True, Is_true_false in Ha. by rewrite Ha.
  - rewrite app_cons_s. simpl. destruct (Ascii.eqb a b); [by apply IH|done].
Qed.

Lemma span_line cls u r :
  cls LF = false →
  span cls (u +:+ String LF r)
  = let '(d, t) := span cls u in (d, t +:+ String LF r).
Proof.
  intros Hc. induction u as [|b u IH].
  - change ("" +:+ String LF r) with (String LF r). simpl. by rewrite Hc.
  - rewrite app_cons_s. simpl. destruct (cls b); [|done].
    rewrite IH. by destruct (span cls u).
Qed.

Lemma skip_opt_line c u r :
  Ascii.eqb LF c = false →
  skip_opt c (u +:+ String LF r) = skip_opt c u +:+ String LF r.
Proof.
  intros Hc. destruct u as [|b u].
  - change ("" +:+ String LF r) with (String LF r). simpl. by rewrite Hc.
  - rewrite app_cons_s. simpl. by destruct (Ascii.eqb b c).
Qed.

Lemma consumed_line s t x : consumed (s +:+ x) (t +:+ x) = consumed s t.
Proof. unfold consumed. rewrite !length_app_s. lia. Qed.

Lemma req_digits_line u r :
  req_digits (u +:+ String LF r)
  = (λ '(d, t), (d, t +:+ String LF r)) <$> req_digits u.
Proof.
  unfold req_digits. rewrite strip_prefix_line by done.
  destruct (strip_prefix "REQ-" u) as [v|]; [|done]. simpl.
  rewrite span_line by done. destruct (span is_digit v) as [d t].
  by destruct d.
Qed.

Lemma opt_bracket_line {A} (f g : string → option A) s r :
  (∀ u, f (u +:+ String LF r) = g u) →
  opt_bracket f (s +:+ String LF r) = opt_bracket g s.
Proof.
  intros Hfg. destruct s as [|c s].
  - change ("" +:+ String LF r) with (String LF r). apply (Hfg "").
  - rewrite app_cons_s. pose proof (Hfg s) as H1.
    pose proof (Hfg (String c s)) as H2. rewrite app_cons_s in H2.
    unfold opt_bracket.
    destruct c as [[] [] [] [] [] [] [] []]; try done.
    by rewrite H1, H2.
Qed.

Lemma single_pat_line : line_local single_pat.
Proof.
  intros prev s r. unfold single_pat. apply opt_bracket_line. intros u.
  rewrite req_digits_line. destruct (req_digits u) as [[d t]|]; [|done].
  simpl. by rewrite skip_opt_line, consumed_line.
Qed.

Lemma range_pat_line : line_local range_pat.
Proof.
  intros prev s r. unfold range_pat. apply opt_bracket_line. intros u.
  rewrite req_digits_line. destruct (req_digits u) as [[d t]|]; [|done].
  change (_ <$> Some (d, t)) with (Some (d, t +:+ String LF r)). cbv beta iota.
  rewrite strip_prefix_line by done.
  destruct (strip_prefix ".." t) as [v|]; [|done].
  change (_ <$> Some v) with (Some (v +:+ String LF r)). cbv beta iota.
  rewrite span_line by done. destruct (span is_digit v) as [d2 w].
  destruct d2; [done|]. by rewrite skip_opt_line, consumed_line.
Qed.

Lemma finditer_from_line {A} (m : matcher A) prev k s r :
  line_local m →
  finditer_from m prev k s ⊆ finditer_from m prev k (s +:+ String LF r).
Proof.
  intros Hm. revert prev k. induction s as [|c s IH]; intros prev k.
  - apply list_subseteq_nil.
  - rewrite app_cons_s. simpl. destruct k as [|k]; [|apply IH].
    rewrite <- app_cons_s, Hm.
    destruct (m prev (String c s)) as [[g n]|]; [|apply IH].
    intros x [->|Hx]%elem_of_cons; [left|right; by apply IH].
Qed.

Lemma parse_ids_line c r : parse_ids c ⊆ parse_ids (c +:+ NL +:+ r).
Proof.
  unfold parse_ids, single_ordinals, range_ordinals, finditer.
  change (NL +:+ r) with (String LF r).
  pose proof (finditer_from_line single_pat None 0 c r single_pat_line) as H1.
  pose proof (finditer_from_line range_pat None 0 c r range_pat_line) as H2.
  intros n [Hn|Hn]%elem_of_union; apply elem_of_union;
    apply elem_of_list_to_set in Hn.
  - left. apply elem_of_list_to_set. by apply H1.
  - right. apply elem_of_list_to_set.
    apply list_elem_of_bind in Hn as ([a b] & Hn & Hab).
    apply list_elem_of_bind. exists (a, b). split; [done|by apply H2].
Qed.

Lemma missing_list_line docs c r :
  missing_list docs (c +:+ NL +:+ r) ⊆ missing_list docs c.
Proof.
  intros n [Hd Hc]%elem_of_missing_list. apply elem_of_missing_list.
  split; [done|]. intros Hn. apply Hc. by apply parse_ids_line.
Qed.

End req_check.

(** ** The traceability check of compose_validate *)

Section compose.
Import Compose.

Lemma elem_of_missing_checklist iter docs cl r :
  (∀ X : gset string, iter X ≡ₚ elements X) →
  r ∈ missing_checklist iter docs cl ↔ r ∈ reqs docs ∧ r ∉ checklist_refs cl.
Proof.
  intros Hiter. unfold missing_checklist.
  rewrite list_elem_of_filter, Hiter, elem_of_elements. tauto.
Qed.

Lemma validate_traceability_ok iter trace docs cl :
  (validate_traceability iter trace docs cl).2 = true
  ↔ missing_checklist iter docs cl = [].
Proof.
  unfold validate_traceability. by destruct (missing_checklist iter docs cl).
Qed.

Lemma bind_alter_subseteq {A B} (f : A → list B) (g : A → A) i (l : list A) :
  (∀ y, f y ⊆ f (g y)) → l ≫= f ⊆ alter g i l ≫= f.
Proof.
  intros Hfg. revert i. induction l as [|y l IH]; intros i; [done|].
  destruct i as [|i]; simpl; intros x [Hx|Hx]%elem_of_app; apply elem_of_app.
  - left. by apply Hfg.
  - by right.
  - by left.
  - right. by apply IH.
Qed.

Lemma all_refs_add_ref mi si r cl : all_refs cl ⊆ all_refs (add_ref mi si r cl).
Proof.
  unfold all_refs, add_ref. simpl. apply bind_alter_subseteq.
  intros ms. simpl. apply bind_alter_subseteq.
  intros st x Hx. simpl. apply elem_of_app. by left.
Qed.

Lemma checklist_refs_add_ref mi si r cl :
  checklist_refs (Some cl) ⊆ checklist_refs (Some (add_ref mi si r cl)).
Proof.
  unfold checklist_refs. intros k Hk. apply elem_of_list_to_set in Hk.
  apply elem_of_list_to_set.
  apply list_elem_of_bind in Hk as (x & Hk & Hx).
  apply list_elem_of_bind. exists x. split; [done|].
  by apply all_refs_add_ref.
Qed.

Lemma missing_checklist_add_ref iter docs mi si r cl :
  missing_checklist iter docs (Some (add_ref mi si r cl))
  ⊆ missing_checklist iter docs (Some cl).
Proof.
  unfold missing_checklist. intros x [Hn Hx]%list_elem_of_filter.
  apply list_elem_of_filter. split; [|done].
  intros Hc. apply Hn. by apply checklist_refs_add_ref.
Qed.

(** A range token in [refs]. *)
Lemma range_match_token k d1 d2 :
  k ≠ "" → all_chars is_upper k → numeral d1 → numeral d2 →
  range_match (k +:+ "-" +:+ d1 +:+ ".." +:+ d2) = Some (k, int d1, int d2).
Proof.
  intros Hk Hu [Hn1 Hd1] [Hn2 Hd2]. unfold range_match.
  rewrite span_app by done. destruct k as [|c k]; [done|].
  change ("-" +:+ ?x) with (String "-" x). cbv beta iota.
  rewrite span_app by done. destruct d1 as [|c1 d1]; [done|].
  rewrite strip_prefix_app, span_all by done. by destruct d2.
Qed.

Lemma identifier_of_key k d :
  k ≠ "" → all_chars is_upper k → numeral d →
  identifier_of (k +:+ "-" +:+ d) = Some (k, int d).
Proof.
  intros Hk Hu [Hn Hd]. unfold identifier_of.
  rewrite span_app by done. destruct k as [|c k]; [done|].
  change ("-" +:+ ?x) with (String "-" x). cbv beta iota.
  rewrite span_all by done. by destruct d.
Qed.

End compose.

(** ** The claims of the specification *)

(** C10: if the scan of the blueprint documents finds no REQ identifier, the
    coverage script prints that no REQs were found and ends with status 0,
    whether the checklist file exists or not. *)
Theorem C10_no_reqs_exit_0 (docs : list string) (checklist : option string) :
  ReqCheck.defined_reqs docs = ∅ →
  ReqCheck.main docs checklist
  = ReqCheck.Outcome ["No REQs found in blueprint."] 0.
Proof. apply main_no_reqs. Qed.

Lemma C10_witness :
  ReqCheck.defined_reqs ["# Overview"; "nothing numbered here"] = ∅
  ∧ ReqCheck.main ["# Overview"; "nothing numbered here"] None
    = ReqCheck.Outcome ["No REQs found in blueprint."] 0.
Proof.
  split; [by vm_compute|].
  apply (C10_no_reqs_exit_0 ["# Overview"; "nothing numbered here"] None).
  by vm_compute.
Defined.

(** C5, as stated: an absent checklist file makes the run fatal.  The
    coverage script ends with status 0 when no document names a REQ and the
    checklist file is absent. *)
Lemma C5_counterexample :
  ReqCheck.main ["# Overview"] None
  = ReqCheck.Outcome ["No REQs found in blueprint."] 0
  ∧ ¬ (∀ docs, ReqCheck.status (ReqCheck.main docs None) ≠ 0).
Proof.
  split; [by vm_compute|]. intros Hfatal. by apply (Hfatal ["# Overview"]).
Qed.

(** C5, amended: when the checklist file is absent and some document names
    a REQ, the coverage script prints the not-found error alone and ends
    with status 1; no missing requirement is computed or printed. *)
Theorem C5_absent_checklist_fatal (docs : list string) :
  ReqCheck.defined_reqs docs ≠ ∅ →
  ReqCheck.main docs None
  = ReqCheck.Outcome ["::error::implementation_checklist.yaml not found!"] 1.
Proof. apply main_no_checklist. Qed.

Lemma C5_witness :
  ReqCheck.defined_reqs ["## [REQ-01] Boot"; "see REQ-2"] ≠ ∅
  ∧ ReqCheck.main ["## [REQ-01] Boot"; "see REQ-2"] None
    = ReqCheck.Outcome ["::error::implementation_checklist.yaml not found!"] 1.
Proof.
  split; [by vm_compute|].
  apply (C5_absent_checklist_fatal ["## [REQ-01] Boot"; "see REQ-2"]).
  by vm_compute.
Defined.

(** What the coverage check flags.  The CI script lists exactly the ordinals
    that some document declares and the checklist does not cover, and ends
    with status 0 exactly when there is none.  compose_validate lists
    exactly the keys, as they are written, that start with REQ- in some
    chapter and are not among the keys of the checklist, for every order in
    which the set is walked, and returns true exactly when there is none.
    An identifier that only the checklist names is flagged by neither:
    Scenario A passes in both. *)
Theorem coverage_flags_by_key
    (iter : gset string → list string) (trace : bool)
    (docs : list string) (c : string)
    (chapters : list string) (cl : option Compose.checklist) :
  (∀ X : gset string, iter X ≡ₚ elements X) →
  (∀ n, n ∈ ReqCheck.missing_list docs c
        ↔ n ∈ ReqCheck.defined_reqs docs ∧ n ∉ ReqCheck.parse_ids c)
  ∧ (ReqCheck.status (ReqCheck.main docs (Some c)) = 0
     ↔ ReqCheck.missing_list docs c = [])
  ∧ (∀ r, r ∈ Compose.missing_checklist iter chapters cl
          ↔ r ∈ Compose.reqs chapters ∧ r ∉ Compose.checklist_refs cl)
  ∧ ((Compose.validate_traceability iter trace chapters cl).2 = true
     ↔ Compose.missing_checklist iter chapters cl = [])
  ∧ ReqCheck.main ["## [REQ-1] Boot"] (Some "refs: [REQ-1..3]")
    = ReqCheck.Outcome
        ["SUCCESS: All 1 observed REQs are referenced in checklist."] 0
  ∧ Compose.missing_checklist iter ["## [REQ-1] Boot"]
      (Some (Compose.Checklist
               [Compose.Milestone [Compose.Step ["REQ-1..3"]]])) = [].
Proof.
  intros Hiter. split_and!.
  - intros n. apply elem_of_missing_list.
  - apply main_status_0.
  - intros r. by apply elem_of_missing_checklist.
  - apply validate_traceability_ok.
  - by vm_compute.
  - apply elem_of_nil_inv.
    intros r [Hr Hn]%elem_of_missing_checklist; [|done]. apply Hn.
    assert (Compose.reqs ["## [REQ-1] Boot"] = {["REQ-1"]}) as Heq
      by (by vm_compute).
    rewrite Heq in Hr. apply elem_of_singleton in Hr as ->.
    apply (bool_decide_unpack _). by vm_compute.
Qed.

Lemma coverage_flags_by_key_witness :
  (∀ X : gset string, elements X ≡ₚ elements X)
  ∧ (∀ n, n ∈ ReqCheck.missing_list ["## [REQ-1] Boot"; "REQ-4"] "refs: [REQ-1..3]"
          ↔ n ∈ ReqCheck.defined_reqs ["## [REQ-1] Boot"; "REQ-4"]
            ∧ n ∉ ReqCheck.parse_ids "refs: [REQ-1..3]").
Proof.
  split; [done|].
  apply (coverage_flags_by_key elements false
           ["## [REQ-1] Boot"; "REQ-4"] "refs: [REQ-1..3]" [] None).
  done.
Defined.

(** C1: compose_validate flags a REQ identifier that the Coverage Set holds.
    A chapter declares REQ-01 and the checklist refers to REQ-1: both keys
    stand for the identifier of kind REQ and ordinal 1, so the identifier is
    declared and covered, and yet the key REQ-01 is listed as missing and
    the rule fails.  On the same corpus the CI script, which compares
    ordinals, lists nothing and ends with status 0. *)
Theorem C1_compose_flags_covered_identifier :
  Compose.reqs ["## [REQ-01] Boot"] = {["REQ-01"]}
  ∧ Compose.checklist_refs
      (Some (Compose.Checklist [Compose.Milestone [Compose.Step ["REQ-1"]]]))
    = {["REQ-1"]}
  ∧ Compose.identifier_of "REQ-01" = Some ("REQ", 1)
  ∧ Compose.identifier_of "REQ-1" = Some ("REQ", 1)
  ∧ Compose.missing_checklist elements ["## [REQ-01] Boot"]
      (Some (Compose.Checklist [Compose.Milestone [Compose.Step ["REQ-1"]]]))
    = ["REQ-01"]
  ∧ (Compose.validate_traceability elements false ["## [REQ-01] Boot"]
       (Some (Compose.Checklist [Compose.Milestone [Compose.Step ["REQ-1"]]]))).2
    = false
  ∧ ReqCheck.defined_reqs ["## [REQ-01] Boot"] = {[1]}
  ∧ ReqCheck.parse_ids "refs: [REQ-1]" = {[1]}
  ∧ ReqCheck.missing_list ["## [REQ-01] Boot"] "refs: [REQ-1]" = []
  ∧ ReqCheck.status (ReqCheck.main ["## [REQ-01] Boot"] (Some "refs: [REQ-1]")) = 0.
Proof. split_and!; by vm_compute. Qed.

(** C4: the coverage check is monotonic in the checklist.  In the CI script
    a line added to the checklist file leaves a list of missing ordinals
    within the old one, and a run that passed still passes; in
    compose_validate a reference appended to the refs of a step leaves a
    list of missing REQs within the old one. *)
Theorem C4_checklist_monotonic :
  (∀ docs c r,
     ReqCheck.missing_list docs (c +:+ NL +:+ r) ⊆ ReqCheck.missing_list docs c)
  ∧ (∀ docs c r,
       ReqCheck.status (ReqCheck.main docs (Some c)) = 0 →
       ReqCheck.status (ReqCheck.main docs (Some (c +:+ NL +:+ r))) = 0)
  ∧ (∀ iter docs cl mi si r,
       Compose.missing_checklist iter docs (Some (Compose.add_ref mi si r cl))
       ⊆ Compose.missing_checklist iter docs (Some cl))
  ∧ (∀ iter trace docs cl mi si r,
       (Compose.validate_traceability iter trace docs (Some cl)).2 = true →
       (Compose.validate_traceability iter trace docs
          (Some (Compose.add_ref mi si r cl))).2 = true).
Proof.
  split_and!.
  - apply missing_list_line.
  - intros docs c r. rewrite !main_status_0. intros H0.
    apply elem_of_nil_inv. intros n Hn%missing_list_line.
    rewrite H0 in Hn. by apply elem_of_nil in Hn.
  - intros iter docs cl mi si r. apply missing_checklist_add_ref.
  - intros iter trace docs cl mi si r. rewrite !validate_traceability_ok.
    intros H0. apply elem_of_nil_inv. intros x Hx%missing_checklist_add_ref.
    rewrite H0 in Hx. by apply elem_of_nil in Hx.
Qed.

(** C2, as stated: a range token with reversed or non-numeric bounds is
    reported as a parse error.  A reversed range in the checklist expands to
    nothing and the run passes; a range with letters for bounds is not seen
    at all. *)
Lemma C2_counterexample :
  finditer ReqCheck.range_pat "refs: [REQ-5..3]" = [(5, 3)]
  ∧ ReqCheck.range_ordinals "refs: [REQ-5..3]" = []
  ∧ ReqCheck.main ["## [REQ-5] Audio"] (Some "refs: [REQ-5..3]")
    = ReqCheck.Outcome
        ["SUCCESS: All 1 observed REQs are referenced in checklist."] 0
  ∧ ReqCheck.parse_ids "refs: [REQ-x..y]" = ∅
  ∧ Compose.ref_keys "REQ-5..3" = []
  ∧ Compose.ref_keys "REQ-x..y" = ["REQ-x..y"].
Proof. split_and!; by vm_compute. Qed.

(** C3 at its failing input: compose_validate keeps identifiers as text, so
    a requirement declared as REQ-01 is reported missing although the
    checklist refers to it as REQ-1, and REQ-001 is reported missing although
    the checklist range REQ-1..3 covers ordinal 1.  The CI script reads the
    ordinal with [int] and passes on the same corpus. *)
Theorem C3_compose_tells_padded_from_unpadded :
  Compose.validate_traceability elements false ["## [REQ-01] Boot"]
    (Some (Compose.Checklist [Compose.Milestone [Compose.Step ["REQ-1"]]]))
  = (["Validating traceability (REQ -> TEST/Checklist)...";
      "FAIL: The following REQs are missing from implementation_checklist.yaml: 1";
      "  - REQ-01";
      "  (Run with --trace for full analysis)"], false)
  ∧ Compose.missing_checklist elements ["## [REQ-001] Boot"]
      (Some (Compose.Checklist [Compose.Milestone [Compose.Step ["REQ-1..3"]]]))
    = ["REQ-001"]
  ∧ ReqCheck.main ["## [REQ-01] Boot"] (Some "refs: [REQ-1]")
    = ReqCheck.Outcome
        ["SUCCESS: All 1 observed REQs are referenced in checklist."] 0
  ∧ ReqCheck.parse_ids "REQ-01" = ReqCheck.parse_ids "REQ-1".
Proof. split_and!; by vm_compute. Qed.

(** C8 at its failing input: compose_validate prints the missing REQs in the
    order in which the set [reqs] hands them out.  Two orders that a set of
    strings may take give two different outputs for one corpus. *)
Theorem C8_compose_output_follows_set_order :
  ∃ it1 it2 : gset string → list string,
    (∀ X, it1 X ≡ₚ elements X) ∧ (∀ X, it2 X ≡ₚ elements X)
    ∧ Compose.validate_traceability it1 false ["## [REQ-1] Boot"; "## [REQ-2] Audio"]
        (Some (Compose.Checklist [Compose.Milestone [Compose.Step ["TEST-1"]]]))
      ≠ Compose.validate_traceability it2 false ["## [REQ-1] Boot"; "## [REQ-2] Audio"]
          (Some (Compose.Checklist [Compose.Milestone [Compose.Step ["TEST-1"]]])).
Proof.
  exists elements, (λ X, reverse (elements X)). split_and!.
  - done.
  - intros X. apply reverse_Permutation.
  - by vm_compute.
Qed.

(** ** The expansion of a range *)

Lemma range_incl_spec a b :
  a ≤ b →
  NoDup (ReqCheck.range_incl a b)
  ∧ length (ReqCheck.range_incl a b) = b - a + 1
  ∧ ∀ i, i ∈ ReqCheck.range_incl a b ↔ a ≤ i ≤ b.
Proof.
  intros Hab. unfold ReqCheck.range_incl. split_and!.
  - apply NoDup_seq.
  - rewrite length_seq. lia.
  - intros i. rewrite elem_of_seq. lia.
Qed.

Lemma omap_identifier_keys k (l : list nat) :
  k ≠ "" → all_chars is_upper k →
  omap Compose.identifier_of
    (i ← l; [k +:+ "-" +:+ str i; k +:+ "-" +:+ str02 i])
  = (i ← l; [(k, i); (k, i)]).
Proof.
  intros Hk Hu. induction l as [|i l IH]; [done|].
  cbn [mbind list_bind app omap list_omap].
  rewrite !identifier_of_key by auto using str_numeral, str02_numeral.
  rewrite int_str, int_str02. cbn. by rewrite <- IH.
Qed.

Lemma list_to_set_twice (k : string) (l : list nat) :
  list_to_set (i ← l; [(k, i); (k, i)]) =@{gset (string * nat)}
  list_to_set ((λ i, (k, i)) <$> l).
Proof.
  induction l as [|i l IH]; [done|]. cbn. rewrite <- IH. set_solver.
Qed.

(** C9: a range token KIND-A..B with A <= B expands to the B-A+1 distinct
    identifiers of the closed interval from A to B.  In the CI script these
    are the ordinals the range loop adds, and they are all that [parse_ids]
    returns for the token; in compose_validate the keys added for the token
    stand for exactly these identifiers. *)
Theorem C9_range_expands_to_closed_interval (k d1 d2 : string) :
  k ≠ "" → all_chars is_upper k → numeral d1 → numeral d2 →
  int d1 ≤ int d2 →
  ReqCheck.range_ordinals ("REQ-" +:+ d1 +:+ ".." +:+ d2)
    = seq (int d1) (int d2 - int d1 + 1)
  ∧ NoDup (ReqCheck.range_ordinals ("REQ-" +:+ d1 +:+ ".." +:+ d2))
  ∧ length (ReqCheck.range_ordinals ("REQ-" +:+ d1 +:+ ".." +:+ d2))
    = int d2 - int d1 + 1
  ∧ (∀ i, i ∈ ReqCheck.range_ordinals ("REQ-" +:+ d1 +:+ ".." +:+ d2)
          ↔ int d1 ≤ i ≤ int d2)
  ∧ (∀ i, i ∈ ReqCheck.parse_ids ("REQ-" +:+ d1 +:+ ".." +:+ d2)
          ↔ int d1 ≤ i ≤ int d2)
  ∧ size (ReqCheck.parse_ids ("REQ-" +:+ d1 +:+ ".." +:+ d2))
    = int d2 - int d1 + 1
  ∧ Compose.ref_keys (k +:+ "-" +:+ d1 +:+ ".." +:+ d2)
    = (i ← seq (int d1) (int d2 - int d1 + 1);
       [k +:+ "-" +:+ str i; k +:+ "-" +:+ str02 i])
  ∧ (∀ id, id ∈ omap Compose.identifier_of
                   (Compose.ref_keys (k +:+ "-" +:+ d1 +:+ ".." +:+ d2))
           ↔ ∃ i, id = (k, i) ∧ int d1 ≤ i ≤ int d2)
  ∧ size (list_to_set (omap Compose.identifier_of
            (Compose.ref_keys (k +:+ "-" +:+ d1 +:+ ".." +:+ d2)))
          : gset (string * nat))
    = int d2 - int d1 + 1.
Proof.
  intros Hk Hu H1 H2 Hle.
  destruct (range_incl_spec _ _ Hle) as (Hnd & Hlen & Hin).
  assert (ReqCheck.range_ordinals ("REQ-" +:+ d1 +:+ ".." +:+ d2)
          = ReqCheck.range_incl (int d1) (int d2)) as Hr.
  { unfold ReqCheck.range_ordinals. rewrite range_pat_token by done.
    cbn [mbind list_bind]. apply app_nil_r. }
  assert (ReqCheck.parse_ids ("REQ-" +:+ d1 +:+ ".." +:+ d2)
          = list_to_set (ReqCheck.range_incl (int d1) (int d2))) as Hp.
  { unfold ReqCheck.parse_ids, ReqCheck.single_ordinals.
    rewrite Hr, single_pat_token by done.
    assert (int d1 ∈ ReqCheck.range_incl (int d1) (int d2)) by (apply Hin; lia).
    set_solver. }
  assert (Compose.ref_keys (k +:+ "-" +:+ d1 +:+ ".." +:+ d2)
          = (i ← ReqCheck.range_incl (int d1) (int d2);
             [k +:+ "-" +:+ str i; k +:+ "-" +:+ str02 i])) as Hk2.
  { unfold Compose.ref_keys. by rewrite range_match_token by done. }
  assert (ReqCheck.range_incl (int d1) (int d2)
          = seq (int d1) (int d2 - int d1 + 1)) as Hseq.
  { unfold ReqCheck.range_incl. f_equal. lia. }
  rewrite Hr, Hp, Hk2, omap_identifier_keys by done.
  split_and!; try done.
  - intros i. rewrite elem_of_list_to_set. apply Hin.
  - rewrite size_list_to_set by done. done.
  - by rewrite Hseq.
  - intros id. rewrite list_elem_of_bind. split.
    + intros (i & Hid & Hi%Hin). exists i. split; [|done]. set_solver.
    + intros (i & -> & Hi%Hin). exists i. split; [|done]. set_solver.
  - rewrite list_to_set_twice, size_list_to_set.
    + by rewrite length_fmap.
    + apply NoDup_fmap_2; [|done]. by intros i j [= ->].
Qed.

Lemma C9_witness :
  "TEST" ≠ "" ∧ all_chars is_upper "TEST" ∧ numeral "08" ∧ numeral "11"
  ∧ int "08" ≤ int "11"
  ∧ ReqCheck.range_ordinals ("REQ-" +:+ "08" +:+ ".." +:+ "11")
    = seq (int "08") (int "11" - int "08" + 1).
Proof.
  assert (int "08" ≤ int "11") as Hle by (vm_compute; lia).
  split_and!; [done|done|done|done|exact Hle|].
  by apply (C9_range_expands_to_closed_interval "TEST" "08" "11").
Defined.

(** ** The placeholder rule *)

Section na_check.
Import NaCheck.

Lemma flagged_true line :
  flagged line = true
  ↔ contains "N/A" line = true ∧ contains "[TEST-02]" line = false
    ∧ contains "`N/A`" line = false ∧ has_dec line = false.
Proof.
  unfold flagged.
  destruct (contains "N/A" line), (contains "[TEST-02]" line),
    (contains "`N/A`" line), (has_dec line); simpl; naive_solver.
Qed.

(** The violations that the scan of a file reports for line number [n]. *)
Lemma scan_lines_at f idx lines n :
  filter (λ v, lineno v = n) (scan_lines f idx lines) =
    if decide (idx < n) then
      match lines !! (n - idx - 1) with
      | Some line => if flagged line then [Violation f n (strip line)] else []
      | None => []
      end
    else [].
Proof.
  revert idx. induction lines as [|line rest IH]; intros idx.
  - simpl. by case_decide.
  - cbn [scan_lines]. rewrite filter_app, IH.
    destruct (decide (n = idx + 1)) as [->|Hne].
    + rewrite decide_False by lia. rewrite decide_True by lia.
      replace (idx + 1 - idx - 1) with 0 by lia. simpl.
      destruct (flagged line); [|done].
      rewrite filter_cons_True by done. done.
    + assert (filter (λ v, lineno v = n)
                (if flagged line then [Violation f (idx + 1) (strip line)] else [])
              = []) as ->.
      { destruct (flagged line); [|done]. rewrite filter_cons_False; [done|].
        simpl. lia. }
      simpl. destruct (decide (idx < n)) as [Hlt|Hge].
      * rewrite decide_True by lia.
        replace (n - idx - 1) with (S (n - S idx - 1)) by lia. done.
      * by rewrite decide_False by lia.
Qed.

End na_check.

(** ** Headers *)

Section headers.
Import Headers.

Lemma universal_newlines_line e r :
  single_line e →
  universal_newlines (e +:+ String LF r) = e +:+ String LF (universal_newlines r).
Proof.
  unfold single_line. induction e as [|c e IH]; intros He.
  - done.
  - rewrite !app_cons_s. simpl in He. apply andb_True in He as [Hc He].
    cbn [universal_newlines]. unfold is_newline in Hc.
    apply negb_True, Is_true_false, orb_false_iff in Hc as [_ Hc].
    rewrite Hc. by rewrite IH.
Qed.

Lemma first_line_of_line e r :
  single_line e → first_line_of (e +:+ String LF r) = e +:+ NL.
Proof.
  unfold single_line. induction e as [|c e IH]; intros He.
  - done.
  - rewrite !app_cons_s. simpl in He. apply andb_True in He as [Hc He].
    cbn [first_line_of]. unfold is_newline in Hc.
    apply negb_True, Is_true_false, orb_false_iff in Hc as [Hc _].
    rewrite Hc. by rewrite IH.
Qed.

Lemma readline_line e r :
  single_line e → readline (e +:+ NL +:+ r) = e +:+ NL.
Proof.
  intros He. unfold readline, read. change (NL +:+ r) with (String LF r).
  rewrite universal_newlines_line by done. by apply first_line_of_line.
Qed.

Lemma rstrip_keeps a c :
  is_space c = false → rstrip (a +:+ String c "") = a +:+ String c "".
Proof.
  intros Hc. induction a as [|x a IH].
  - simpl. by rewrite Hc.
  - rewrite app_cons_s. cbn [rstrip]. rewrite IH.
    by destruct a.
Qed.

Lemma rstrip_newline a c :
  is_space c = false → rstrip ((a +:+ String c "") +:+ NL) = a +:+ String c "".
Proof.
  intros Hc. induction a as [|x a IH].
  - simpl. by rewrite Hc.
  - rewrite !app_cons_s. cbn [rstrip]. rewrite IH.
    by destruct a.
Qed.

Lemma expected_shape p : expected p = String "<" ("!-- " +:+ p +:+ " --") +:+ ">".
Proof.
  unfold expected.
  change (String "<" ("!-- " +:+ p +:+ " --")) with ("<!-- " +:+ p +:+ " --").
  by rewrite !app_assoc_s.
Qed.

Lemma strip_expected_newline p : strip (expected p +:+ NL) = expected p.
Proof.
  unfold strip. rewrite expected_shape.
  set (a := String "<" ("!-- " +:+ p +:+ " --")).
  assert (lstrip ((a +:+ ">") +:+ NL) = (a +:+ ">") +:+ NL) as -> by done.
  by apply rstrip_newline.
Qed.

Lemma expected_single_line p : single_line p → single_line (expected p).
Proof.
  unfold single_line, expected. intros Hp.
  rewrite !all_chars_app. apply andb_True. split; [done|].
  apply andb_True. by split.
Qed.

Lemma join_head x l : ∃ t, join NL (x :: l) +:+ NL = x +:+ NL +:+ t.
Proof.
  destruct l as [|y l].
  - exists "". simpl. by rewrite app_nil_r_s.
  - exists (join NL (y :: l) +:+ NL). cbn [join]. by rewrite !app_assoc_s.
Qed.

(** Whatever [fix_headers] writes starts with the expected header and a
    line feed. *)
Lemma fix_file_head p raw new :
  fix_file p raw = Some new → ∃ t, new = expected p +:+ NL +:+ t.
Proof.
  unfold fix_file. destruct (splitlines (read raw)) as [|l0 rest].
  - intros [= <-]. exists "". by rewrite app_nil_r_s.
  - case_decide as Hne; [|done]. intros [= <-].
    destruct (startswith (strip l0) "<!--" && endswith (strip l0) "-->").
    + apply join_head.
    + unfold list_insert_at. cbn [take drop app length].
      match goal with |- context [if ?b then _ else _] => destruct b end;
        cbn [take drop app]; apply join_head.
Qed.

Lemma fix_file_unchanged p raw :
  fix_file p raw = None →
  ∃ l0 rest, splitlines (read raw) = l0 :: rest ∧ strip l0 = expected p.
Proof.
  unfold fix_file. destruct (splitlines (read raw)) as [|l0 rest]; [done|].
  case_decide as Hne; [done|]. intros _. exists l0, rest. split; [done|].
  destruct (decide (strip l0 = expected p)) as [He|He]; [done|by destruct Hne].
Qed.

(** *** A file that the fixer leaves as it is *)

Lemma read_lf_breaks_upto n raw :
  String.length raw ≤ n → ordinary_breaks raw → lf_breaks (read raw).
Proof.
  unfold read, ordinary_breaks, lf_breaks. revert raw.
  induction n as [|n IH]; intros raw Hn Hb.
  - destruct raw; [done|simpl in Hn; lia].
  - destruct raw as [|c r]; [done|]. simpl in Hn, Hb.
    apply andb_True in Hb as [Hc Hr]. cbn [universal_newlines].
    destruct (Ascii.eqb c CR) eqn:Hcr.
    + cbn [all_chars]. apply andb_True. split; [done|].
      destruct r as [|c2 r2]; [done|]. simpl in Hn, Hr.
      destruct (Ascii.eqb c2 LF).
      * apply andb_True in Hr as [_ Hr]. apply IH; [lia|done].
      * apply (IH (String c2 r2)); [simpl; lia|done].
    + cbn [all_chars]. apply andb_True. split; [|apply IH; [lia|done]].
      unfold is_newline in Hc. rewrite Hcr, orb_false_r in Hc. done.
Qed.

Lemma read_lf_breaks raw : ordinary_breaks raw → lf_breaks (read raw).
Proof. by apply (read_lf_breaks_upto (String.length raw)). Qed.

Lemma linebreak_LF : is_linebreak LF = true.
Proof. done. Qed.

Lemma splitlines_nil t : splitlines t = [] → t = "".
Proof.
  destruct t as [|c r]; [done|]. cbn [splitlines].
  destruct (is_linebreak c); [done|]. by destruct (splitlines r).
Qed.

(** With line feeds as the only boundaries, [readline] gives the first
    element of [splitlines], with its line feed if it has one. *)
Lemma first_line_of_splitlines t l0 rest :
  lf_breaks t → splitlines t = l0 :: rest →
  first_line_of t = l0 ∨ first_line_of t = l0 +:+ NL.
Proof.
  unfold lf_breaks. revert l0 rest.
  induction t as [|c r IH]; intros l0 rest Hb Hs; [done|].
  simpl in Hb. apply andb_True in Hb as [Hc Hr].
  cbn [splitlines first_line_of] in *.
  destruct (is_linebreak c) eqn:Hlb.
  - simpl in Hc. apply Is_true_true in Hc. rewrite Hc.
    apply Ascii.eqb_eq in Hc as ->. injection Hs as <- _. by right.
  - assert (Ascii.eqb c LF = false) as Hne.
    { destruct (Ascii.eqb c LF) eqn:He; [|done].
      apply Ascii.eqb_eq in He as ->. by rewrite linebreak_LF in Hlb. }
    rewrite Hne. destruct (splitlines r) as [|l ls] eqn:Hsr.
    + apply splitlines_nil in Hsr as ->. injection Hs as <- _. by left.
    + injection Hs as <- _.
      destruct (IH l ls Hr eq_refl) as [-> | ->]; [by left|by right].
Qed.

Lemma rstrip_app_newline x : rstrip (x +:+ NL) = rstrip x.
Proof.
  induction x as [|c x IH]; [done|].
  rewrite app_cons_s. cbn [rstrip]. by rewrite IH.
Qed.

Lemma lstrip_app a b : lstrip a ≠ "" → lstrip (a +:+ b) = lstrip a +:+ b.
Proof.
  induction a as [|c a IH]; [done|]. rewrite app_cons_s. cbn [lstrip].
  destruct (is_space c); [apply IH|done].
Qed.

Lemma strip_app_newline l0 : strip l0 ≠ "" → strip (l0 +:+ NL) = strip l0.
Proof.
  unfold strip. intros Hne.
  assert (lstrip l0 ≠ "") as Hl by (by intros He; rewrite He in Hne).
  by rewrite lstrip_app, rstrip_app_newline.
Qed.

Lemma check_file_unchanged p raw :
  ordinary_breaks raw → fix_file p raw = None → check_file p raw = true.
Proof.
  intros Hb (l0 & rest & Hs & He)%fix_file_unchanged.
  unfold check_file, readline. apply bool_decide_eq_true.
  assert (strip l0 ≠ "") as Hne by (by rewrite He).
  destruct (first_line_of_splitlines _ _ _ (read_lf_breaks _ Hb) Hs) as [-> | ->].
  - done.
  - by rewrite strip_app_newline.
Qed.

End headers.

(** C7: whatever the header fixer writes passes the header check: for every
    markdown file whose relative path holds no line break, and every
    content, the file as rewritten starts with the expected header line, so
    the stripped first line that the checker reads equals it exactly.  An
    empty file is rewritten, and so is every file whose first line, stripped,
    is not the expected header; a file that is left as it is passes the
    check too when line feeds and carriage returns are its only line
    boundaries. *)
Theorem C7_rewritten_header_passes (rel_path raw new : string) :
  single_line rel_path →
  Headers.fix_file rel_path raw = Some new →
  strip (Headers.readline new) = Headers.expected rel_path
  ∧ Headers.check_file rel_path new = true
  ∧ Headers.fix_file rel_path "" = Some (Headers.expected rel_path +:+ NL)
  ∧ (∀ raw', Headers.fix_file rel_path raw' = None →
       ∃ l0 rest, Headers.splitlines (Headers.read raw') = l0 :: rest
                  ∧ strip l0 = Headers.expected rel_path)
  ∧ (∀ raw', ordinary_breaks raw' → Headers.fix_file rel_path raw' = None →
       Headers.check_file rel_path raw' = true).
Proof.
  intros Hp Hfix. apply fix_file_head in Hfix as [t ->].
  assert (strip (Headers.readline (Headers.expected rel_path +:+ NL +:+ t))
          = Headers.expected rel_path) as Hs.
  { rewrite readline_line by by apply expected_single_line.
    apply strip_expected_newline. }
  split_and!.
  - done.
  - unfold Headers.check_file. by apply bool_decide_eq_true.
  - done.
  - apply fix_file_unchanged.
  - apply check_file_unchanged.
Qed.

Lemma C7_witness :
  single_line "_blueprint/project/ch0.md"
  ∧ Headers.fix_file "_blueprint/project/ch0.md" "# Chapter 0" =
      Some ("<!-- _blueprint/project/ch0.md -->" +:+ NL +:+ NL
            +:+ "# Chapter 0" +:+ NL)
  ∧ Headers.check_file "_blueprint/project/ch0.md"
      ("<!-- _blueprint/project/ch0.md -->" +:+ NL +:+ NL
       +:+ "# Chapter 0" +:+ NL) = true.
Proof.
  split_and!; [done|by vm_compute|].
  apply (C7_rewritten_header_passes "_blueprint/project/ch0.md" "# Chapter 0");
    [done|by vm_compute].
Defined.

(** ** The walk over the tree *)

(** After [fix_headers], [check_headers] accepts a tree whose paths hold no
    line break and whose files have line feeds and carriage returns as their
    only line boundaries. *)
Lemma fix_then_check_tree (tree : list (string * string)) :
  Forall (λ '(p, raw), single_line p ∧ ordinary_breaks raw) tree →
  Headers.check_headers (Headers.fix_headers tree) = true.
Proof.
  unfold Headers.check_headers, Headers.fix_headers.
  induction 1 as [|[p raw] tree [Hp Hraw] _ IH]; [done|].
  cbn [fmap list_fmap forallb]. rewrite IH, andb_true_r.
  destruct (Headers.is_md p) eqn:Hmd; cbv beta iota; rewrite Hmd; [|done].
  destruct (Headers.fix_file p raw) as [new|] eqn:Hfix; cbn [default].
  - apply fix_file_head in Hfix as [t ->]. unfold Headers.check_file.
    apply bool_decide_eq_true. unfold id.
    rewrite readline_line by by apply expected_single_line.
    apply strip_expected_newline.
  - by apply check_file_unchanged.
Qed.

(** ** One identifier in the CI script *)

Lemma parse_ids_single_token d :
  numeral d → ReqCheck.parse_ids ("REQ-" +:+ d) = {[int d]}.
Proof.
  intros [Hne Hd].
  assert (all_chars (λ c, negb (ReqCheck.starts_req c)) ("EQ-" +:+ d)) as Hno.
  { change ("EQ-" +:+ d) with (String "E" (String "Q" (String "-" d))).
    cbn [all_chars]. by apply numeral_no_req. }
  assert (finditer ReqCheck.single_pat ("REQ-" +:+ d) = [int d]) as Hs.
  { rewrite finditer_req.
    assert (ReqCheck.single_pat None ("REQ-" +:+ d)
            = Some (int d, String.length ("REQ-" +:+ d))) as ->.
    { unfold ReqCheck.single_pat. rewrite opt_bracket_req.
      rewrite <- (app_nil_r_s d) at 1.
      rewrite (req_digits_numeral d "") by done.
      unfold consumed. change (skip_opt "]" "") with "". simpl.
      do 2 f_equal; lia. }
    f_equal. apply finditer_from_skip_all. simpl. lia. }
  assert (finditer ReqCheck.range_pat ("REQ-" +:+ d) = []) as Hr.
  { rewrite finditer_req.
    assert (ReqCheck.range_pat None ("REQ-" +:+ d) = None) as ->.
    { unfold ReqCheck.range_pat. rewrite opt_bracket_req.
      rewrite <- (app_nil_r_s d) at 1.
      by rewrite (req_digits_numeral d "") by done. }
    by apply (finditer_from_no_match _ ReqCheck.starts_req);
      [apply range_pat_head|]. }
  unfold ReqCheck.parse_ids, ReqCheck.single_ordinals, ReqCheck.range_ordinals.
  rewrite Hs, Hr. set_solver.
Qed.

(** The CI script reads a padded and an unpadded numeral as one ordinal. *)
Lemma ci_padding_insensitive d :
  numeral d →
  ReqCheck.parse_ids ("REQ-" +:+ "0" +:+ d) = ReqCheck.parse_ids ("REQ-" +:+ d).
Proof.
  intros Hd. rewrite !parse_ids_single_token; [done|done|].
  destruct Hd as [_ Hd]. split; [done|]. by apply Hd.
Qed.

(** ** Remarks on the limits of the claims *)

(** The fixer splits lines as [splitlines] does and the checker as
    [readline] does: a correct header that a form feed follows on its line
    is left alone by the fixer and refused by the checker. *)
Example header_before_form_feed :
  Headers.fix_file "a.md" ("<!-- a.md -->" +:+ String (ascii_of_nat 12) "notes") = None
  ∧ Headers.check_file "a.md"
      ("<!-- a.md -->" +:+ String (ascii_of_nat 12) "notes") = false.
Proof. split; by vm_compute. Qed.

(** The placeholder rule looks for the text of N/A between two backticks
    anywhere on the line. *)
Example placeholder_inline_code :
  NaCheck.flagged "Latency: N/A (see `N/A` in ch2)" = false
  ∧ NaCheck.flagged "`Latency N/A`" = true.
Proof. split; by vm_compute. Qed.

(** The CI script prints the missing ordinals sorted: its output is the same
    for every order in which the set of the missing ordinals is listed. *)
Lemma ci_output_order_independent (X : gset nat) (l : list nat) :
  l ≡ₚ elements X → merge_sort (≤) l = ReqCheck.sorted X.
Proof. intros Hl. by apply sort_order_independent. Qed.

(** compose_validate takes an absent checklist file for an empty one and
    lists every declared REQ as missing. *)
Example compose_absent_checklist :
  Compose.validate_traceability elements true ["## [REQ-1] Boot"] None
  = (["Validating traceability (REQ -> TEST/Checklist)...";
      "FAIL: The following REQs are missing from implementation_checklist.yaml: 1";
      "  - REQ-1"], false).
Proof. by vm_compute. Qed.

(** * Further properties of the scripts *)

(** ** The scan of the checklist document *)

Section checklist_document.
Import Yaml ComposeMain.

Lemma for_each_inr {A B} (f : A → result (list B)) (g : A → list B) l :
  (∀ x, x ∈ l → f x = inr (g x)) → for_each f l = inr (l ≫= g).
Proof.
  induction l as [|x l IH]; intros Hf; [done|].
  cbn [for_each]. rewrite (Hf x) by left. cbn [rbind].
  rewrite IH; [done|]. intros y Hy. apply Hf. by right.
Qed.

Lemma for_each_raises {A B} (f : A → result (list B)) l x e :
  x ∈ l → f x = inl e → ∃ e', for_each f l = inl e'.
Proof.
  induction l as [|y l IH]; intros Hx Hf; [by apply elem_of_nil in Hx|].
  cbn [for_each]. destruct (f y) as [e1|ys] eqn:Hy; [by exists e1|].
  apply elem_of_cons in Hx as [->|Hx]; [congruence|].
  destruct (IH Hx Hf) as [e' ->]. by exists e'.
Qed.

Lemma for_each_fmap {A B C} (f : B → result (list C)) (h : A → B) l :
  for_each f (h <$> l) = for_each (f ∘ h) l.
Proof. induction l as [|x l IH]; [done|]. cbn. by rewrite IH. Qed.

Lemma py_get_head k v rest default :
  py_get (YMap ((YStr k, v) :: rest)) k default = inr v.
Proof. unfold py_get. cbn [lookup_items is_key]. by rewrite String.eqb_refl. Qed.

Lemma step_keys_of_step st :
  step_keys (yaml_of_step st) = inr (Compose.refs st ≫= Compose.ref_keys).
Proof.
  unfold step_keys, yaml_of_step. rewrite py_get_head. cbn [rbind py_iter].
  rewrite for_each_fmap. by apply for_each_inr.
Qed.

Lemma milestone_keys_of_milestone ms :
  milestone_keys (yaml_of_milestone ms)
  = inr (Compose.steps ms ≫= λ st, Compose.refs st ≫= Compose.ref_keys).
Proof.
  unfold milestone_keys, yaml_of_milestone.
  rewrite py_get_head. cbn [rbind py_iter].
  rewrite for_each_fmap. apply for_each_inr. intros st _. apply step_keys_of_step.
Qed.

Lemma bind_assoc_list {A B C} (f : A → list B) (g : B → list C) (l : list A) :
  (l ≫= f) ≫= g = l ≫= (λ x, f x ≫= g).
Proof.
  induction l as [|x l IH]; [done|]. cbn. by rewrite bind_app, IH.
Qed.

Lemma bind_ext_list {A B} (f g : A → list B) (l : list A) :
  (∀ x, f x = g x) → l ≫= f = l ≫= g.
Proof.
  intros Hfg. induction l as [|x l IH]; [done|]. cbn. by rewrite Hfg, IH.
Qed.

Lemma checklist_keys_of_checklist cl :
  checklist_keys (yaml_of_checklist cl)
  = inr (Compose.all_refs cl ≫= Compose.ref_keys).
Proof.
  unfold checklist_keys, yaml_of_checklist.
  rewrite py_get_head. cbn [rbind]. rewrite py_get_head. cbn [rbind py_iter].
  rewrite for_each_fmap.
  rewrite (for_each_inr _
             (λ ms, Compose.steps ms ≫= λ st, Compose.refs st ≫= Compose.ref_keys))
    by (intros ms _; apply milestone_keys_of_milestone).
  f_equal. unfold Compose.all_refs.
  rewrite bind_assoc_list. apply bind_ext_list.
  intros ms. by rewrite bind_assoc_list.
Qed.

End checklist_document.

Section checklist_edges.
Import Yaml ComposeMain.

Lemma for_each_ref_entry rs :
  for_each ref_entry rs =
    if forallb is_str rs then inr ((str_of <$> rs) ≫= Compose.ref_keys)
    else inl TypeError.
Proof.
  induction rs as [|r rs IH]; [done|]. cbn [for_each forallb].
  destruct r as [| |s|l|items]; try done.
  cbn [ref_entry rbind is_str andb]. rewrite IH.
  by destruct (forallb is_str rs).
Qed.

Lemma range_match_char c : Compose.range_match (String c "") = None.
Proof.
  unfold Compose.range_match. cbn [span]. by destruct (is_upper c).
Qed.

Lemma for_each_chars s :
  for_each ref_entry (YStr <$> chars_of s) = inr (chars_of s).
Proof.
  induction s as [|c s IH]; [done|].
  cbn [chars_of fmap list_fmap for_each ref_entry rbind].
  change (list_fmap _ _ YStr (chars_of s)) with (YStr <$> chars_of s).
  rewrite IH. cbn [rbind]. unfold Compose.ref_keys.
  by rewrite range_match_char.
Qed.

Lemma chars_of_length s k : k ∈ chars_of s → String.length k = 1.
Proof.
  induction s as [|c s IH]; cbn [chars_of]; [by intros ?%elem_of_nil|].
  intros [->|Hk]%elem_of_cons; [done|by apply IH].
Qed.

End checklist_edges.

(** On a checklist document of the expected shape the scan raises nothing
    and collects the keys of all refs, so [validate_traceability] prints and
    returns what it does on the checklist as a record; an absent file is an
    empty checklist. *)
Theorem checklist_document_scan (iter : gset string → list string)
    (trace : bool) (docs : list string) (cl : Compose.checklist) :
  ComposeMain.checklist_file_refs
    (ComposeMain.Loaded (ComposeMain.yaml_of_checklist cl))
  = inr (Compose.checklist_refs (Some cl))
  ∧ ComposeMain.validate_traceability iter trace docs
      (ComposeMain.Loaded (ComposeMain.yaml_of_checklist cl))
    = ((Compose.validate_traceability iter trace docs (Some cl)).1,
       inr (Compose.validate_traceability iter trace docs (Some cl)).2)
  ∧ ComposeMain.validate_traceability iter trace docs ComposeMain.Absent
    = ((Compose.validate_traceability iter trace docs None).1,
       inr (Compose.validate_traceability iter trace docs None).2).
Proof.
  assert (ComposeMain.checklist_file_refs
            (ComposeMain.Loaded (ComposeMain.yaml_of_checklist cl))
          = inr (Compose.checklist_refs (Some cl))) as Hrefs.
  { unfold ComposeMain.checklist_file_refs.
    by rewrite checklist_keys_of_checklist. }
  split_and!; [done|..].
  - unfold ComposeMain.validate_traceability. rewrite Hrefs.
    unfold Compose.validate_traceability, Compose.missing_checklist.
    by destruct (filter _ _).
  - unfold ComposeMain.validate_traceability, Compose.validate_traceability,
      Compose.missing_checklist. cbn [ComposeMain.checklist_file_refs].
    by destruct (filter _ _).
Qed.

(** A key that the checklist document lacks counts as empty at every level:
    without [implementation_checklist], without [milestones], without
    [steps] in a milestone or without [refs] in a step nothing is added and
    nothing is raised. *)
Theorem checklist_missing_keys (items : list (Yaml.yaml * Yaml.yaml)) :
  (Yaml.lookup_items "implementation_checklist" items = None →
   ComposeMain.checklist_keys (Yaml.YMap items) = inr [])
  ∧ (Yaml.lookup_items "milestones" items = None →
     ComposeMain.checklist_keys
       (Yaml.YMap [(Yaml.YStr "implementation_checklist", Yaml.YMap items)])
     = inr [])
  ∧ (Yaml.lookup_items "steps" items = None →
     ComposeMain.milestone_keys (Yaml.YMap items) = inr [])
  ∧ (Yaml.lookup_items "refs" items = None →
     ComposeMain.step_keys (Yaml.YMap items) = inr []).
Proof.
  split_and!; intros Hk.
  - unfold ComposeMain.checklist_keys, Yaml.py_get. by rewrite Hk.
  - unfold ComposeMain.checklist_keys. rewrite py_get_head.
    unfold Yaml.py_get, Yaml.rbind. by rewrite Hk.
  - unfold ComposeMain.milestone_keys, Yaml.py_get. by rewrite Hk.
  - unfold ComposeMain.step_keys, Yaml.py_get. by rewrite Hk.
Qed.

Lemma checklist_missing_keys_witness :
  Yaml.lookup_items "implementation_checklist"
    [(Yaml.YStr "version", Yaml.YScalar)] = None
  ∧ ComposeMain.checklist_keys (Yaml.YMap [(Yaml.YStr "version", Yaml.YScalar)])
    = inr [].
Proof.
  split; [done|].
  by apply (checklist_missing_keys [(Yaml.YStr "version", Yaml.YScalar)]).
Defined.

(** A checklist document that is not a mapping (an empty file, a list, a
    text) ends the scan with AttributeError, and so does a milestone or a
    step that is not a mapping; [milestones], [steps] or [refs] holding
    nothing or a number ends it with TypeError. *)
Theorem checklist_wrong_shape (data : Yaml.yaml) :
  Yaml.is_map data = false →
  ComposeMain.checklist_keys data = inl Yaml.AttributeError
  ∧ ComposeMain.milestone_keys data = inl Yaml.AttributeError
  ∧ ComposeMain.step_keys data = inl Yaml.AttributeError
  ∧ ComposeMain.checklist_keys (Yaml.YMap [(Yaml.YStr "implementation_checklist", data)])
    = inl Yaml.AttributeError
  ∧ (∀ v, v = Yaml.YNull ∨ v = Yaml.YScalar →
       ComposeMain.step_keys (Yaml.YMap [(Yaml.YStr "refs", v)]) = inl Yaml.TypeError
       ∧ ComposeMain.milestone_keys (Yaml.YMap [(Yaml.YStr "steps", v)])
         = inl Yaml.TypeError
       ∧ ComposeMain.checklist_keys
           (Yaml.YMap [(Yaml.YStr "implementation_checklist",
                        Yaml.YMap [(Yaml.YStr "milestones", v)])])
         = inl Yaml.TypeError).
Proof.
  intros Hm. split_and!.
  - by destruct data.
  - by destruct data.
  - by destruct data.
  - unfold ComposeMain.checklist_keys. rewrite py_get_head. by destruct data.
  - intros v Hv. split_and!.
    + unfold ComposeMain.step_keys. rewrite py_get_head. by destruct Hv as [->| ->].
    + unfold ComposeMain.milestone_keys. rewrite py_get_head.
      by destruct Hv as [->| ->].
    + unfold ComposeMain.checklist_keys. rewrite py_get_head. cbn [Yaml.rbind].
      rewrite py_get_head. by destruct Hv as [->| ->].
Qed.

Lemma checklist_wrong_shape_witness :
  Yaml.is_map Yaml.YNull = false
  ∧ ComposeMain.checklist_keys Yaml.YNull = inl Yaml.AttributeError.
Proof. split; [done|]. by apply (checklist_wrong_shape Yaml.YNull). Defined.

(** The refs of a step are read one by one: if every entry is a string the
    step adds the keys of each, otherwise the scan ends with TypeError.
    Refs written as one string instead of a list are read character by
    character: the step adds the single characters, never the identifier
    that the string spells. *)
Theorem step_refs_entries (rs : list Yaml.yaml) (s k : string) :
  ComposeMain.step_keys (Yaml.YMap [(Yaml.YStr "refs", Yaml.YSeq rs)])
  = (if forallb Yaml.is_str rs
     then inr ((Yaml.str_of <$> rs) ≫= Compose.ref_keys)
     else inl Yaml.TypeError)
  ∧ ComposeMain.step_keys (Yaml.YMap [(Yaml.YStr "refs", Yaml.YStr s)])
    = inr (Yaml.chars_of s)
  ∧ (k ∈ Yaml.chars_of s → String.length k = 1).
Proof.
  split_and!.
  - unfold ComposeMain.step_keys. rewrite py_get_head.
    cbn [Yaml.rbind Yaml.py_iter]. apply for_each_ref_entry.
  - unfold ComposeMain.step_keys. rewrite py_get_head.
    cbn [Yaml.rbind Yaml.py_iter]. apply for_each_chars.
  - apply chars_of_length.
Qed.

(** ** The structure, the registry and the header rule of compose_validate *)

Section compose_rules.
Import Yaml ComposeMain.

Lemma find_first {A} (P : A → bool) pre x post :
  Forall (λ y, P y = false) pre → P x = true →
  List.find P (pre ++ x :: post) = Some x.
Proof.
  intros Hpre Hx. induction Hpre as [|y pre Hy _ IH]; simpl.
  - by rewrite Hx.
  - by rewrite Hy.
Qed.

Lemma find_none_iff {A} (P : A → bool) l :
  List.find P l = None ↔ Forall (λ y, P y = false) l.
Proof.
  induction l as [|y l IH]; simpl; [by split|].
  destruct (P y) eqn:Hy.
  - split; [done|]. intros HF. apply Forall_cons in HF as [HF _]. congruence.
  - rewrite IH. split; [by constructor|]. by intros [_ ?]%Forall_cons.
Qed.

Lemma negb_false_Forall {A} (P : A → bool) l :
  Forall (λ y, negb (P y) = false) l ↔ Forall (λ y, P y = true) l.
Proof.
  apply Forall_iff. intros y. by destruct (P y).
Qed.

Lemma remove_dot_slash_header x :
  remove_dot_slash ("<!-- ./" +:+ x) = remove_dot_slash ("<!-- " +:+ x).
Proof.
  change ("<!-- ./" +:+ x) with
    (String "<" (String "!" (String "-" (String "-" (String " "
       (String "." (String "/" x))))))).
  change ("<!-- " +:+ x) with
    (String "<" (String "!" (String "-" (String "-" (String " " x))))).
  by cbn [remove_dot_slash].
Qed.

End compose_rules.

(** [validate_structure] passes exactly when the root, the four mandatory
    directories and the two mandatory files are all there; it always prints
    two lines, the banner and one verdict, so only the first missing path is
    named. *)
Theorem validate_structure_verdict (root : string) (f : ComposeMain.fs) :
  ((ComposeMain.validate_structure root f).2 = true
   ↔ ComposeMain.root_is_dir f = true
     ∧ Forall (λ d, ComposeMain.is_dir f d = true) ComposeMain.MANDATORY_DIRS
     ∧ Forall (λ x, ComposeMain.path_exists f x = true) ComposeMain.MANDATORY_FILES)
  ∧ length (ComposeMain.validate_structure root f).1 = 2
  ∧ ((ComposeMain.validate_structure root f).2 = true →
     (ComposeMain.validate_structure root f).1
     = ["Validating directory structure..."; "Structure: OK"]).
Proof.
  unfold ComposeMain.validate_structure.
  destruct (ComposeMain.root_is_dir f); cbn [negb];
    [|split_and!; [split; [done|by intros [? _]]|done|done]].
  destruct (List.find _ ComposeMain.MANDATORY_DIRS) as [d|] eqn:Hd.
  { split_and!; [|done|done]. split; [done|]. intros (_ & HF & _).
    apply negb_false_Forall, find_none_iff in HF. congruence. }
  destruct (List.find _ ComposeMain.MANDATORY_FILES) as [x|] eqn:Hx.
  { split_and!; [|done|done]. split; [done|]. intros (_ & _ & HF).
    apply negb_false_Forall, find_none_iff in HF. congruence. }
  split_and!; [|done|done]. split; [|done]. intros _.
  apply find_none_iff, negb_false_Forall in Hd.
  apply find_none_iff, negb_false_Forall in Hx. done.
Qed.

(** When the root is a directory, the first mandatory directory that is
    missing is the one [validate_structure] names, whatever else is
    missing. *)
Theorem validate_structure_first_missing (root : string) (f : ComposeMain.fs)
    (pre post : list string) (d : string) :
  ComposeMain.root_is_dir f = true →
  ComposeMain.MANDATORY_DIRS = pre ++ d :: post →
  Forall (λ y, ComposeMain.is_dir f y = true) pre →
  ComposeMain.is_dir f d = false →
  ComposeMain.validate_structure root f
  = (["Validating directory structure...";
      "FAIL: Directory " +:+ d +:+ " missing."], false).
Proof.
  intros Hroot Hdirs Hpre Hd. unfold ComposeMain.validate_structure.
  rewrite Hroot, Hdirs. cbn [negb].
  rewrite (find_first _ pre d post); [done| |by rewrite Hd].
  by apply negb_false_Forall.
Qed.

Lemma validate_structure_first_missing_witness :
  let f := ComposeMain.Fs true (λ d, bool_decide (d = "project" ∨ d = "rules"))
             (λ _, false) in
  ComposeMain.root_is_dir f = true
  ∧ ComposeMain.MANDATORY_DIRS = ["project"; "rules"] ++ "knowledge" :: ["tools"]
  ∧ Forall (λ y, ComposeMain.is_dir f y = true) ["project"; "rules"]
  ∧ ComposeMain.is_dir f "knowledge" = false
  ∧ ComposeMain.validate_structure "/repo/_blueprint" f
    = (["Validating directory structure...";
        "FAIL: Directory " +:+ "knowledge" +:+ " missing."], false).
Proof.
  intros f.
  assert (Forall (λ y, ComposeMain.is_dir f y = true) ["project"; "rules"]) as HF
    by (by repeat constructor).
  split_and!; [done|done|exact HF|done|].
  by apply (validate_structure_first_missing "/repo/_blueprint" f
              ["project"; "rules"] ["tools"] "knowledge").
Defined.

(** [validate_ids] passes exactly when the registry loads and [registry] is
    a key of the mapping (an element of the list, a piece of the text) that
    it holds.  A registry that fails to load is a failure that is reported;
    a registry file that is empty or holds a number raises TypeError after
    the banner alone was printed, and nothing else is ever raised. *)
Theorem validate_ids_verdict (registry : string + Yaml.yaml) :
  ((ComposeMain.validate_ids registry).2 = inr true
   ↔ ∃ data, registry = inr data ∧ Yaml.py_in "registry" data = inr true)
  ∧ ((∃ e, (ComposeMain.validate_ids registry).2 = inl e)
     ↔ registry = inr Yaml.YNull ∨ registry = inr Yaml.YScalar)
  ∧ (∀ e, (ComposeMain.validate_ids registry).2 = inl e →
       e = Yaml.TypeError
       ∧ (ComposeMain.validate_ids registry).1
         = ["Validating ID Registry uniqueness..."])
  ∧ (∀ msg, registry = inl msg →
       ComposeMain.validate_ids registry
       = (["Validating ID Registry uniqueness...";
           "FAIL: Could not load id_registry: " +:+ msg], inr false)).
Proof.
  unfold ComposeMain.validate_ids. destruct registry as [msg|data].
  { split_and!.
    - split; [done|]. by intros (data & ? & _).
    - split; [by intros [e ?]|]. by intros [?|?].
    - done.
    - by intros ? [= ->]. }
  destruct data as [| |s|l|items]; cbn [Yaml.py_in Yaml.raise].
  - split_and!; [split; [done|by intros (? & [= <-] & ?)]| |by intros e [= <-]|done].
    split; [by left|by exists Yaml.TypeError].
  - split_and!; [split; [done|by intros (? & [= <-] & ?)]| |by intros e [= <-]|done].
    split; [by right|by exists Yaml.TypeError].
  - destruct (contains "registry" s) eqn:Hc; split_and!; try done.
    + split; [intros _; eexists; split; [done|]; cbn; by rewrite Hc|done].
    + split; [by intros [? ?]|by intros [?|?]].
    + split; [done|]. intros (? & [= <-] & Hin). cbn in Hin. congruence.
    + split; [by intros [? ?]|by intros [?|?]].
  - destruct (existsb _ l) eqn:Hc; split_and!; try done.
    + split; [intros _; eexists; split; [done|]; cbn; by rewrite Hc|done].
    + split; [by intros [? ?]|by intros [?|?]].
    + split; [done|]. intros (? & [= <-] & Hin). cbn in Hin. congruence.
    + split; [by intros [? ?]|by intros [?|?]].
  - destruct (existsb _ _) eqn:Hc; split_and!; try done.
    + split; [intros _; eexists; split; [done|]; cbn; by rewrite Hc|done].
    + split; [by intros [? ?]|by intros [?|?]].
    + split; [done|]. intros (? & [= <-] & Hin). cbn in Hin. congruence.
    + split; [by intros [? ?]|by intros [?|?]].
Qed.

Lemma check_file_rewritten p raw new :
  single_line p → Headers.fix_file p raw = Some new →
  Headers.check_file p new = true.
Proof.
  intros Hp [t ->]%fix_file_head. apply bool_decide_eq_true.
  rewrite readline_line by by apply expected_single_line.
  apply strip_expected_newline.
Qed.

(** The header rule of compose_validate compares the first line and the
    expected comment after every "./" was deleted from both.  So it accepts
    whatever check_headers accepts and whatever fix_headers writes, and it
    accepts a header that spells the path with "./" in front, which
    check_headers refuses. *)
Theorem header_rule_ignores_dot_slash (rel_path raw : string) :
  single_line rel_path →
  ((ComposeMain.validate_header_rule rel_path raw).2 = true
   ↔ ComposeMain.remove_dot_slash (strip (Headers.readline raw))
     = ComposeMain.remove_dot_slash (Headers.expected rel_path))
  ∧ (Headers.check_file rel_path raw = true →
     ComposeMain.validate_header_rule rel_path raw = ([], true))
  ∧ (∀ new, Headers.fix_file rel_path raw = Some new →
       ComposeMain.validate_header_rule rel_path new = ([], true))
  ∧ ComposeMain.validate_header_rule rel_path
      (Headers.expected ("./" +:+ rel_path) +:+ NL +:+ raw) = ([], true)
  ∧ Headers.check_file rel_path
      (Headers.expected ("./" +:+ rel_path) +:+ NL +:+ raw) = false.
Proof.
  intros Hp.
  assert (∀ x, Headers.check_file rel_path x = true →
               ComposeMain.validate_header_rule rel_path x = ([], true)) as Hchk.
  { intros x Hx. apply bool_decide_eq_true in Hx.
    unfold ComposeMain.validate_header_rule. by rewrite decide_False by by intros ?. }
  assert (single_line ("./" +:+ rel_path)) as Hp' by done.
  assert (strip (Headers.readline
                   (Headers.expected ("./" +:+ rel_path) +:+ NL +:+ raw))
          = Headers.expected ("./" +:+ rel_path)) as Hs.
  { rewrite readline_line by by apply expected_single_line.
    apply strip_expected_newline. }
  split_and!.
  - unfold ComposeMain.validate_header_rule.
    destruct (decide (strip (Headers.readline raw) ≠ Headers.expected rel_path))
      as [Hne|Heq].
    + by destruct (decide (_ ≠ _)) as [Hne'|Heq']; [|apply dec_stable in Heq'].
    + apply dec_stable in Heq. by rewrite Heq.
  - apply Hchk.
  - intros new Hfix. apply Hchk.
    by apply (check_file_rewritten rel_path raw new).
  - unfold ComposeMain.validate_header_rule. rewrite Hs.
    rewrite decide_True.
    + rewrite decide_False; [done|]. intros Hne. apply Hne.
      unfold Headers.expected. apply remove_dot_slash_header.
    + unfold Headers.expected. intros [=].
      destruct rel_path as [|c r]; [done|].
      apply (f_equal String.length) in H0. rewrite !length_app_s in H0.
      simpl in H0. lia.
  - apply bool_decide_eq_false. rewrite Hs.
    unfold Headers.expected. intros [=].
    apply (f_equal String.length) in H0. rewrite !length_app_s in H0.
    simpl in H0. lia.
Qed.

Lemma header_rule_ignores_dot_slash_witness :
  single_line "_blueprint/project/ch1.md"
  ∧ (Headers.check_file "_blueprint/project/ch1.md"
       ("<!-- _blueprint/project/ch1.md -->" +:+ NL +:+ "# One") = true →
     ComposeMain.validate_header_rule "_blueprint/project/ch1.md"
       ("<!-- _blueprint/project/ch1.md -->" +:+ NL +:+ "# One") = ([], true)).
Proof.
  split; [done|].
  by apply (header_rule_ignores_dot_slash "_blueprint/project/ch1.md"
              ("<!-- _blueprint/project/ch1.md -->" +:+ NL +:+ "# One")).
Defined.

(** ** [main] of compose_validate *)

Section compose_main.
Import Yaml ComposeMain.

Lemma forallb_headers bp (md_files : list (string * string)) :
  forallb snd
    ((λ '(p, raw), validate_header_rule (bp +:+ "/" +:+ p) raw) <$> md_files)
  = true
  ↔ Forall (λ '(p, raw), (validate_header_rule (bp +:+ "/" +:+ p) raw).2 = true)
      md_files.
Proof.
  induction md_files as [|[p raw] l IH]; [by split|].
  cbn [fmap list_fmap forallb]. rewrite andb_true_iff, Forall_cons.
  change (list_fmap _ _ ?f l) with (f <$> l). by rewrite IH.
Qed.

End compose_main.

(** [main] runs the four rules one after the other whatever the earlier ones
    found: a run that no exception ends prints what [validate_structure]
    printed, what [validate_ids] printed, the banner of the headers and what
    the header rule printed for each file, what [validate_traceability]
    printed, and the verdict, in this order.  An exception that leaves
    [validate_ids] or [validate_traceability] ends the run there, after the
    banner of that rule, with status 1.  The run ends with status 0 exactly
    when no exception left a rule and all four passed; otherwise the status
    is 1. *)
Theorem compose_main_verdict (iter : gset string → list string) (trace : bool)
    (root bp_name : string) (f : ComposeMain.fs)
    (registry : string + Yaml.yaml) (md_files : list (string * string))
    (checklist : ComposeMain.yaml_file) :
  let r := ComposeMain.main iter trace root bp_name f registry md_files checklist in
  let o1 := (ComposeMain.validate_structure root f).1 in
  let o2 := (ComposeMain.validate_ids registry).1 in
  let o3 :=
    "Validating markdown headers..."
    :: concat (((λ '(p, raw),
                 ComposeMain.validate_header_rule (bp_name +:+ "/" +:+ p) raw)
                <$> md_files).*1) in
  let t := ComposeMain.validate_traceability iter trace
             (ComposeMain.project_docs md_files) checklist in
  (ComposeMain.exit_status r = 0
   ↔ (ComposeMain.validate_structure root f).2 = true
     ∧ (ComposeMain.validate_ids registry).2 = inr true
     ∧ Forall (λ '(p, raw),
               (ComposeMain.validate_header_rule (bp_name +:+ "/" +:+ p) raw).2
               = true) md_files
     ∧ t.2 = inr true)
  ∧ (ComposeMain.exit_status r = 0 ∨ ComposeMain.exit_status r = 1)
  ∧ o1 `prefix_of` ComposeMain.printed r
  ∧ (ComposeMain.raised r = None →
     last (ComposeMain.printed r)
     = Some (if ComposeMain.exit_status r =? 0
             then "Validation PASSED." else "Validation FAILED."))
  ∧ (ComposeMain.raised r ≠ None → ComposeMain.exit_status r = 1)
  ∧ (ComposeMain.raised r = None
     ↔ (∃ b2, (ComposeMain.validate_ids registry).2 = inr b2) ∧ ∃ b4, t.2 = inr b4)
  ∧ (ComposeMain.raised r = None →
     ComposeMain.printed r
     = o1 ++ o2 ++ o3 ++ t.1
       ++ [if ComposeMain.exit_status r =? 0
           then "Validation PASSED." else "Validation FAILED."])
  ∧ (∀ e, (ComposeMain.validate_ids registry).2 = inl e →
       ComposeMain.printed r = o1 ++ o2 ∧ ComposeMain.raised r = Some e)
  ∧ (∀ b2 e, (ComposeMain.validate_ids registry).2 = inr b2 → t.2 = inl e →
       ComposeMain.printed r = o1 ++ o2 ++ o3 ++ t.1
       ∧ ComposeMain.raised r = Some e).
Proof.
  intros r o1 o2 o3 t. subst r o1 o2 o3 t. unfold ComposeMain.main.
  destruct (ComposeMain.validate_structure root f) as [o1 b1].
  destruct (ComposeMain.validate_ids registry) as [o2 [e2|b2]].
  { cbn. split_and!;
      [split; [done|by intros (_ & ? & _)]|by right|by apply prefix_app_r
      |done|done|split; [done|by intros [[? ?] _]]|done
      |by intros e [= ->]|done]. }
  rewrite <- forallb_headers.
  set (hs := (λ '(p, raw), ComposeMain.validate_header_rule _ raw) <$> md_files).
  set (o3 := "Validating markdown headers..." :: concat hs.*1).
  destruct (ComposeMain.validate_traceability _ _ _ _) as [o4 [e4|b4]].
  { cbn. split_and!;
      [split; [done|by intros (_ & _ & _ & ?)]|by right|by apply prefix_app_r
      |done|done|split; [done|by intros [_ [? ?]]]|done|done
      |by intros _ e _ [= ->]]. }
  cbn [snd fst].
  destruct (b1 && b2 && forallb snd hs && b4) eqn:Hok;
    cbn [ComposeMain.printed ComposeMain.exit_status ComposeMain.raised].
  - apply andb_true_iff in Hok as [[[-> ->]%andb_true_iff ->]%andb_true_iff ->].
    split_and!; [done|by left|by apply prefix_app_r| |done
                |split; [by eauto|done]|done|done|done].
    intros _. by rewrite !app_assoc, last_snoc.
  - split_and!; [|by right|by apply prefix_app_r| |done
                |split; [by eauto|done]|done|done|done].
    + split; [done|]. intros (-> & [= ->] & H3 & [= ->]).
      by rewrite H3 in Hok.
    + intros _. by rewrite !app_assoc, last_snoc.
Qed.

(** ** Identifiers never span lines *)

Section scan_lines.

Lemma finditer_from_app {A} (m : matcher A) prev k s r :
  line_local m →
  (∀ p t g n, m p t = Some (g, n) → n ≤ String.length t) →
  k ≤ String.length s →
  ∃ prev', finditer_from m prev k (s +:+ String LF r)
           = finditer_from m prev k s ++ finditer_from m prev' 0 (String LF r).
Proof.
  intros Hloc Hbound. revert prev k.
  induction s as [|c s IH]; intros prev k Hk.
  - simpl in Hk. assert (k = 0) as -> by lia. by exists prev.
  - rewrite app_cons_s. cbn [finditer_from]. destruct k as [|k].
    + rewrite <- app_cons_s, Hloc.
      destruct (m prev (String c s)) as [[g n]|] eqn:Hm.
      * apply Hbound in Hm. simpl in Hm.
        destruct (IH (Some c) (pred n)) as [prev' ->]; [lia|]. by exists prev'.
      * destruct (IH (Some c) 0) as [prev' ->]; [lia|]. by exists prev'.
    + simpl in Hk. destruct (IH (Some c) k) as [prev' ->]; [lia|]. by exists prev'.
Qed.

Lemma finditer_lines {A} (m : matcher A) a b :
  line_local m →
  (∀ p t g n, m p t = Some (g, n) → n ≤ String.length t) →
  (∀ p r, m p (String LF r) = None) →
  (∀ t, m (Some LF) t = m None t) →
  finditer m (a +:+ NL +:+ b) = finditer m a ++ finditer m b.
Proof.
  intros Hloc Hbound Hlf Hprev. unfold finditer.
  change (NL +:+ b) with (String LF b).
  destruct (finditer_from_app m None 0 a b Hloc Hbound) as [prev' ->]; [lia|].
  f_equal. cbn [finditer_from]. rewrite Hlf.
  destruct b as [|c b]; [done|]. cbn [finditer_from]. by rewrite Hprev.
Qed.

Lemma consumed_le s t : consumed s t ≤ String.length s.
Proof. unfold consumed. lia. Qed.

Lemma opt_bracket_some {A} (body : string → option A) s x :
  ReqCheck.opt_bracket body s = Some x →
  body s = Some x ∨ ∃ r, s = String "[" r ∧ body r = Some x.
Proof.
  unfold ReqCheck.opt_bracket. destruct s as [|c r]; [by left|].
  destruct (ascii_dec c "[") as [->|Hne].
  - destruct (body r) eqn:Hb; [|by left]. intros [= <-]. right. by exists r.
  - intros Hx. left. revert Hx. by destruct c as [[] [] [] [] [] [] [] []].
Qed.

Lemma single_pat_bounded p t g n :
  ReqCheck.single_pat p t = Some (g, n) → n ≤ String.length t.
Proof.
  unfold ReqCheck.single_pat. intros [H|(r & _ & H)]%opt_bracket_some;
    destruct (ReqCheck.req_digits _) as [[d u]|]; try done;
    injection H as _ <-; apply consumed_le.
Qed.

Lemma range_pat_bounded p t g n :
  ReqCheck.range_pat p t = Some (g, n) → n ≤ String.length t.
Proof.
  unfold ReqCheck.range_pat. intros [H|(r & _ & H)]%opt_bracket_some;
    destruct (ReqCheck.req_digits _) as [[d u]|]; try done;
    destruct (strip_prefix ".." u) as [v|]; try done;
    destruct (span is_digit v) as [[|c d2] w]; try done;
    injection H as _ <-; apply consumed_le.
Qed.

Lemma id_pat_bounded p t g n :
  Compose.id_pat p t = Some (g, n) → n ≤ String.length t.
Proof.
  unfold Compose.id_pat. destruct (match p with Some _ => _ | None => _ end);
    [done|].
  destruct (span is_upper t) as [[|c k] [|c' r]]; try done.
  destruct (ascii_dec c' "-") as [->|Hne];
    [|by destruct c' as [[] [] [] [] [] [] [] []]].
  destruct (span is_digit r) as [[|c1 d] u]; [done|].
  destruct (match u with "" => _ | String _ _ => _ end); [done|].
  intros [= _ <-]. apply consumed_le.
Qed.

Lemma id_pat_line : line_local Compose.id_pat.
Proof.
  intros prev s r. unfold Compose.id_pat.
  destruct (match prev with Some _ => _ | None => _ end); [done|].
  rewrite span_line by done. destruct (span is_upper s) as [k t].
  destruct k as [|c k]; [done|].
  destruct t as [|c' t].
  { change ("" +:+ String LF r) with (String LF r). done. }
  rewrite app_cons_s.
  destruct (ascii_dec c' "-") as [->|Hne];
    [|by destruct c' as [[] [] [] [] [] [] [] []]].
  rewrite span_line by done. destruct (span is_digit t) as [d u].
  destruct d as [|c1 d]; [done|].
  destruct u as [|c2 u].
  - change ("" +:+ String LF r) with (String LF r).
    change (is_word LF) with false. cbv beta iota.
    by rewrite <- (consumed_line s "" (String LF r)).
  - rewrite app_cons_s. destruct (is_word c2); [done|].
    by rewrite <- app_cons_s, consumed_line.
Qed.

Lemma id_pat_LF p r : Compose.id_pat p (String LF r) = None.
Proof.
  unfold Compose.id_pat. by destruct (match p with Some _ => _ | None => _ end).
Qed.

Lemma id_pat_after_LF t : Compose.id_pat (Some LF) t = Compose.id_pat None t.
Proof. done. Qed.

End scan_lines.

(** The identifiers of a text are those of its lines: the CI script and
    compose_validate extract from two texts joined by a line feed what they
    extract from each of them. *)
Theorem identifiers_of_lines (a b : string) :
  ReqCheck.parse_ids (a +:+ NL +:+ b) = ReqCheck.parse_ids a ∪ ReqCheck.parse_ids b
  ∧ Compose.get_all_ids_from_text (a +:+ NL +:+ b)
    = Compose.get_all_ids_from_text a ∪ Compose.get_all_ids_from_text b.
Proof.
  split.
  - unfold ReqCheck.parse_ids, ReqCheck.single_ordinals, ReqCheck.range_ordinals.
    rewrite (finditer_lines ReqCheck.single_pat)
      by (done || apply single_pat_line || apply single_pat_bounded).
    rewrite (finditer_lines ReqCheck.range_pat)
      by (done || apply range_pat_line || apply range_pat_bounded).
    rewrite bind_app, !list_to_set_app_L. set_solver.
  - unfold Compose.get_all_ids_from_text.
    rewrite (finditer_lines Compose.id_pat)
      by (apply id_pat_line || apply id_pat_bounded || apply id_pat_LF
          || apply id_pat_after_LF).
    by rewrite list_to_set_app_L.
Qed.

(** ** The order of the files *)

Section file_order.
Import ReqCheck.

Lemma defined_reqs_perm docs docs' :
  docs ≡ₚ docs' → defined_reqs docs = defined_reqs docs'.
Proof.
  intros Hp. apply set_eq. intros n. rewrite !elem_of_defined_reqs.
  by setoid_rewrite Hp.
Qed.

Lemma compose_reqs_perm docs docs' :
  docs ≡ₚ docs' → Compose.reqs docs = Compose.reqs docs'.
Proof.
  intros Hp. unfold Compose.reqs, Compose.with_prefix. apply set_eq. intros r.
  rewrite !elem_of_union_list. split; intros (X & HX & Hr); exists X;
    (split; [|done]); revert HX; rewrite !list_elem_of_fmap;
    intros (d & -> & Hd); exists d; (split; [done|]).
  - by rewrite <- Hp.
  - by rewrite Hp.
Qed.

Lemma sorted_strictly (X : gset nat) : Sorted lt (sorted X).
Proof.
  unfold sorted.
  assert (StronglySorted le (merge_sort le (elements X))) as Hs
    by (apply StronglySorted_merge_sort; apply _).
  assert (NoDup (merge_sort le (elements X))) as Hn
    by (rewrite merge_sort_Permutation; apply NoDup_elements).
  induction Hs as [|x l Hs IH Hx]; [constructor|].
  apply NoDup_cons in Hn as [Hxl Hn]. constructor; [by apply IH|].
  destruct l as [|y l]; constructor.
  apply Forall_cons in Hx as [Hxy _].
  assert (x ≠ y) by (intros ->; apply Hxl; left). lia.
Qed.

End file_order.

(** The outcome of the CI script and the REQs that compose_validate finds do
    not depend on the order in which the documents are read. *)
Theorem document_order_irrelevant (docs docs' : list string)
    (checklist : option string) :
  docs ≡ₚ docs' →
  ReqCheck.main docs checklist = ReqCheck.main docs' checklist
  ∧ Compose.reqs docs = Compose.reqs docs'.
Proof.
  intros Hp. split; [|by apply compose_reqs_perm].
  unfold ReqCheck.main. by rewrite (defined_reqs_perm docs docs').
Qed.

Lemma document_order_irrelevant_witness :
  ["## [REQ-1] Boot"; "see REQ-2"] ≡ₚ ["see REQ-2"; "## [REQ-1] Boot"]
  ∧ ReqCheck.main ["## [REQ-1] Boot"; "see REQ-2"] (Some "refs: [REQ-1]")
    = ReqCheck.main ["see REQ-2"; "## [REQ-1] Boot"] (Some "refs: [REQ-1]").
Proof.
  assert (["## [REQ-1] Boot"; "see REQ-2"] ≡ₚ ["see REQ-2"; "## [REQ-1] Boot"])
    as Hp by apply Permutation_swap.
  split; [exact Hp|].
  by apply (document_order_irrelevant _ _ (Some "refs: [REQ-1]") Hp).
Defined.

(** The CI script ends with status 0 or 1, and with 0 exactly when no
    document names a REQ or the checklist file exists and covers every REQ
    that is named. *)
Theorem ci_exit_status (docs : list string) (checklist : option string) :
  (ReqCheck.status (ReqCheck.main docs checklist) = 0
   ∨ ReqCheck.status (ReqCheck.main docs checklist) = 1)
  ∧ (ReqCheck.status (ReqCheck.main docs checklist) = 0
     ↔ ReqCheck.defined_reqs docs = ∅
       ∨ ∃ c, checklist = Some c
              ∧ ReqCheck.defined_reqs docs ⊆ ReqCheck.parse_ids c).
Proof.
  unfold ReqCheck.main.
  destruct (decide (ReqCheck.defined_reqs docs = ∅)) as [He|He].
  { split; [by left|]. split; [by left|done]. }
  destruct checklist as [c|]; cbn.
  - destruct (decide (ReqCheck.defined_reqs docs ∖ ReqCheck.parse_ids c = ∅))
      as [Hm|Hm]; cbn.
    + split; [by left|]. split; [|done]. intros _. right. exists c.
      split; [done|]. intros n Hn. apply dec_stable. intros Hc.
      assert (n ∈ ReqCheck.defined_reqs docs ∖ ReqCheck.parse_ids c) as Hin
        by set_solver.
      rewrite Hm in Hin. set_solver.
    + split; [by right|]. split; [done|].
      intros [?|(c' & [= <-] & Hsub)]; [done|]. destruct Hm. set_solver.
  - split; [by right|]. split; [done|]. by intros [?|(c' & ? & _)].
Qed.

(** When the CI script reports missing REQs, it lists them in strictly
    ascending order, each once, and the number it prints is the length of
    the list. *)
Theorem ci_missing_ascending (docs : list string) (c : string) :
  ReqCheck.missing_list docs c ≠ [] →
  ReqCheck.main docs (Some c)
  = ReqCheck.Outcome
      ["::error::Found " +:+ str (length (ReqCheck.missing_list docs c))
       +:+ " [REQ] IDs in Blueprint not referenced in Checklist: "
       +:+ ReqCheck.repr_list
             ((λ x, "REQ-" +:+ str x) <$> ReqCheck.missing_list docs c)] 1
  ∧ Sorted lt (ReqCheck.missing_list docs c)
  ∧ NoDup (ReqCheck.missing_list docs c).
Proof.
  intros Hne.
  assert (ReqCheck.defined_reqs docs ≠ ∅) as Hd.
  { intros He. apply Hne. unfold ReqCheck.missing_list. rewrite He.
    apply sorted_nil. set_solver. }
  split_and!.
  - rewrite main_checklist by done.
    by destruct (ReqCheck.missing_list docs c).
  - apply sorted_strictly.
  - unfold ReqCheck.missing_list, ReqCheck.sorted.
    rewrite merge_sort_Permutation. apply NoDup_elements.
Qed.

Lemma ci_missing_ascending_witness :
  ReqCheck.missing_list ["REQ-12 REQ-7 REQ-1"] "refs: [REQ-1]" ≠ []
  ∧ Sorted lt (ReqCheck.missing_list ["REQ-12 REQ-7 REQ-1"] "refs: [REQ-1]").
Proof.
  assert (ReqCheck.missing_list ["REQ-12 REQ-7 REQ-1"] "refs: [REQ-1]" ≠ [])
    as Hne by (by vm_compute).
  split; [exact Hne|].
  by apply (ci_missing_ascending ["REQ-12 REQ-7 REQ-1"] "refs: [REQ-1]").
Defined.

(** ** What a match looks like *)

Section match_shape.

Lemma span_spec cls s a b :
  span cls s = (a, b) → s = a +:+ b ∧ all_chars cls a ∧ head_is cls b = false.
Proof.
  revert a b. induction s as [|c s IH]; intros a b; cbn [span].
  - by intros [= <- <-].
  - destruct (cls c) eqn:Hc.
    + destruct (span cls s) as [d t]. intros [= <- <-].
      destruct (IH d t eq_refl) as (-> & Hd & Ht).
      split_and!; [done| |done]. cbn [all_chars]. by rewrite Hc.
    + intros [= <- <-]. split_and!; [done|done|]. cbn. by rewrite Hc.
Qed.

Lemma strip_prefix_spec p s r : strip_prefix p s = Some r ↔ s = p +:+ r.
Proof.
  split; [|intros ->; apply strip_prefix_app].
  revert s. induction p as [|a p IH]; intros s; cbn [strip_prefix].
  - by intros [= ->].
  - destruct s as [|b s]; [done|].
    destruct (Ascii.eqb a b) eqn:Hab; [|done].
    apply Ascii.eqb_eq in Hab as ->. intros ->%IH. done.
Qed.

Lemma req_digits_spec t d u :
  ReqCheck.req_digits t = Some (d, u) →
  t = "REQ-" +:+ d +:+ u ∧ numeral d ∧ head_is is_digit u = false.
Proof.
  unfold ReqCheck.req_digits.
  destruct (strip_prefix "REQ-" t) as [r|] eqn:Hr; [|done].
  apply strip_prefix_spec in Hr as ->.
  destruct (span is_digit r) as [d' u'] eqn:Hs.
  apply span_spec in Hs as (-> & Hd & Hu).
  destruct d' as [|c d']; [done|]. intros [= <- <-]. done.
Qed.

Lemma finditer_from_elem {A} (m : matcher A) prev k s x :
  x ∈ finditer_from m prev k s →
  ∃ p pre t n, s = pre +:+ t ∧ m p t = Some (x, n).
Proof.
  revert prev k. induction s as [|c s IH]; intros prev k; cbn [finditer_from].
  - by intros ?%elem_of_nil.
  - assert (∀ p' k', x ∈ finditer_from m p' k' s →
              ∃ p pre t n, String c s = pre +:+ t ∧ m p t = Some (x, n)) as Hrec.
    { intros p' k' (p & pre & t & n & -> & Hm)%IH.
      exists p, (String c pre), t, n. done. }
    destruct k as [|k]; [|apply Hrec].
    destruct (m prev (String c s)) as [[g n]|] eqn:Hm; [|apply Hrec].
    intros [->|Hx]%elem_of_cons; [|by eapply Hrec].
    exists prev, "", (String c s), n. done.
Qed.

(** A key that [get_all_ids_from_text] matches. *)
Lemma id_pat_spec p t key n :
  Compose.id_pat p t = Some (key, n) →
  ∃ k d post, t = k +:+ "-" +:+ d +:+ post ∧ key = k +:+ "-" +:+ d
              ∧ k ≠ "" ∧ all_chars is_upper k ∧ numeral d
              ∧ head_is is_word post = false.
Proof.
  unfold Compose.id_pat. destruct (match p with Some _ => _ | None => _ end);
    [done|].
  destruct (span is_upper t) as [k r] eqn:Hk.
  apply span_spec in Hk as (-> & Hup & _).
  destruct k as [|c k]; [done|]. destruct r as [|c' r]; [done|].
  destruct (ascii_dec c' "-") as [->|Hne];
    [|by destruct c' as [[] [] [] [] [] [] [] []]].
  destruct (span is_digit r) as [d u] eqn:Hd.
  apply span_spec in Hd as (-> & Hdig & _).
  destruct d as [|c1 d]; [done|].
  destruct (match u with "" => _ | String _ _ => _ end) eqn:Hu; [done|].
  intros [= <- _]. exists (String c k), (String c1 d), u.
  by split_and!.
Qed.

End match_shape.

(** Every key that compose_validate takes from a text is a run of capital
    letters, a hyphen and a run of digits that stands in the text with no
    word character behind it, so it stands for an Identifier; and every
    member of [reqs] is REQ- followed by digits. *)
Theorem compose_keys_well_formed (text : string) (docs : list string)
    (key : string) :
  (key ∈ Compose.get_all_ids_from_text text →
   ∃ pre k d post,
     text = pre +:+ k +:+ "-" +:+ d +:+ post ∧ key = k +:+ "-" +:+ d
     ∧ k ≠ "" ∧ all_chars is_upper k ∧ numeral d
     ∧ head_is is_word post = false
     ∧ Compose.identifier_of key = Some (k, int d))
  ∧ (key ∈ Compose.reqs docs →
     ∃ d, key = "REQ-" +:+ d ∧ numeral d
          ∧ Compose.identifier_of key = Some ("REQ", int d)
          ∧ ∃ doc, doc ∈ docs ∧ key ∈ Compose.get_all_ids_from_text doc).
Proof.
  assert (∀ txt, key ∈ Compose.get_all_ids_from_text txt →
            ∃ pre k d post,
              txt = pre +:+ k +:+ "-" +:+ d +:+ post ∧ key = k +:+ "-" +:+ d
              ∧ k ≠ "" ∧ all_chars is_upper k ∧ numeral d
              ∧ head_is is_word post = false
              ∧ Compose.identifier_of key = Some (k, int d)) as Hkey.
  { intros txt Hk. unfold Compose.get_all_ids_from_text, finditer in Hk.
    apply elem_of_list_to_set, finditer_from_elem in Hk
      as (p & pre & t & n & -> & Hm).
    apply id_pat_spec in Hm as (k & d & post & -> & -> & Hk & Hu & Hd & Hw).
    exists pre, k, d, post. split_and!; try done.
    by apply identifier_of_key. }
  split; [apply Hkey|].
  unfold Compose.reqs, Compose.with_prefix.
  intros (X & (doc & -> & Hdoc)%list_elem_of_fmap & Hin)%elem_of_union_list.
  apply elem_of_filter in Hin as [Hst Hin].
  destruct (Hkey doc Hin) as (pre & k & d & post & _ & -> & Hk & Hu & Hd & _ & Hid).
  assert (k = "REQ") as ->.
  { unfold startswith in Hst.
    destruct (strip_prefix "REQ-" (k +:+ "-" +:+ d)) as [r|] eqn:Hr; [|done].
    apply strip_prefix_spec in Hr. clear Hst Hid Hin.
    destruct k as [|c1 [|c2 [|c3 [|c4 k]]]]; try done;
      repeat rewrite app_cons_s in Hr; change ("" +:+ ?x) with x in Hr;
      change ("REQ-" +:+ r) with (String "R" (String "E" (String "Q" (String "-" r)))) in Hr;
      change ("-" +:+ d) with (String "-" d) in Hr.
    - by injection Hr as -> -> -> _.
    - injection Hr as -> -> -> -> _. by vm_compute in Hu. }
  exists d. split_and!; try done. by exists doc.
Qed.

(** ** No occurrence is passed over *)

Section complete_scan.
Import ReqCheck.

Lemma first_R z w x y :
  all_chars (λ c, negb (Ascii.eqb c "R")) z →
  x +:+ String "R" y = z +:+ w → String.length z ≤ String.length x.
Proof.
  revert x. induction z as [|c z IH]; intros x Hz Heq; [simpl; lia|].
  cbn [all_chars] in Hz. apply andb_True in Hz as [Hc Hz].
  destruct x as [|c' x].
  - change ("" +:+ String "R" y) with (String "R" y) in Heq.
    rewrite app_cons_s in Heq. injection Heq as <- _.
    by rewrite Ascii.eqb_refl in Hc.
  - rewrite !app_cons_s in Heq. injection Heq as _ Heq.
    simpl. apply IH in Heq; [lia|done].
Qed.

(** A pattern whose matches are an [R] with no further [R] behind it,
    perhaps after a bracket, finds every place where it matches: the scan
    never passes over one while it skips an earlier match. *)
Lemma finditer_from_complete {A} (m : matcher A) (g0 : A) tok post :
  (∀ prev, ∃ n, m prev (String "R" tok +:+ post) = Some (g0, n)) →
  (∀ prev g n,
     m prev (String "[" (String "R" tok +:+ post)) = Some (g, n) → g = g0) →
  (∀ prev s g n, m prev s = Some (g, n) →
     ∃ b z w, s = b +:+ String "R" (z +:+ w) ∧ (b = "" ∨ b = "[")
              ∧ all_chars (λ c, negb (Ascii.eqb c "R")) z
              ∧ n = String.length b + 1 + String.length z) →
  ∀ pre prev k, k ≤ String.length pre →
    g0 ∈ finditer_from m prev k (pre +:+ String "R" tok +:+ post).
Proof.
  intros Hhere Hbracket Hshape. induction pre as [|c pre IH]; intros prev k Hk.
  - simpl in Hk. assert (k = 0) as -> by lia.
    change ("" +:+ ?x) with x. rewrite app_cons_s. cbn [finditer_from].
    rewrite <- app_cons_s. destruct (Hhere prev) as [n ->]. by left.
  - rewrite app_cons_s. cbn [finditer_from]. simpl in Hk.
    destruct k as [|k]; [|apply IH; lia].
    destruct (m prev (String c (pre +:+ String "R" tok +:+ post)))
      as [[g n]|] eqn:Hm; [|apply IH; lia].
    destruct (Hshape _ _ _ _ Hm) as (b & z & w & Hs & [->| ->] & Hz & ->).
    + change ("" +:+ ?x) with x in Hs. injection Hs as -> Hs.
      rewrite app_cons_s in Hs. apply first_R in Hs; [|done].
      right. apply IH. simpl. lia.
    + change ("[" +:+ ?x) with (String "[" x) in Hs. injection Hs as -> Hs.
      destruct pre as [|c1 pre].
      * change ("" +:+ ?x) with x in Hm. apply Hbracket in Hm as ->. by left.
      * rewrite !app_cons_s in Hs. injection Hs as -> Hs.
        apply first_R in Hs; [|done]. right. apply IH. simpl in *. lia.
Qed.

Lemma skip_opt_split c u :
  ∃ br, u = br +:+ skip_opt c u
        ∧ String.length br ≤ 1
        ∧ (br = "" ∨ br = String c "").
Proof.
  destruct u as [|b u]; [by exists ""; split_and!; [|simpl; lia|left]|].
  cbn [skip_opt]. destruct (Ascii.eqb b c) eqn:Hb.
  - apply Ascii.eqb_eq in Hb as ->. exists (String c "").
    split_and!; [done|simpl; lia|by right].
  - exists "". split_and!; [done|simpl; lia|by left].
Qed.

Lemma digits_no_R d :
  all_chars is_digit d → all_chars (λ c, negb (Ascii.eqb c "R")) d.
Proof.
  induction d as [|c d IH]; [done|]. cbn [all_chars].
  intros [Hc Hd]%andb_True. apply andb_True. split; [|by apply IH].
  by destruct c as [[] [] [] [] [] [] [] []].
Qed.

Lemma single_pat_shape prev s g n :
  single_pat prev s = Some (g, n) →
  ∃ b d u, s = b +:+ "REQ-" +:+ d +:+ u ∧ (b = "" ∨ b = "[")
           ∧ numeral d ∧ head_is is_digit u = false ∧ g = int d
           ∧ n = consumed s (skip_opt "]" u).
Proof.
  unfold single_pat. intros [H|(r & -> & H)]%opt_bracket_some.
  - destruct (req_digits s) as [[d u]|] eqn:Hr; [|done]. injection H as <- <-.
    apply req_digits_spec in Hr as (Hs & Hd & Hu).
    exists "", d, u. split_and!; try done. by left.
  - destruct (req_digits r) as [[d u]|] eqn:Hr; [|done]. injection H as <- <-.
    apply req_digits_spec in Hr as (-> & Hd & Hu).
    exists "[", d, u. split_and!; try done. by right.
Qed.

Lemma range_pat_shape prev s g n :
  range_pat prev s = Some (g, n) →
  ∃ b d1 d2 u, s = b +:+ "REQ-" +:+ d1 +:+ ".." +:+ d2 +:+ u
               ∧ (b = "" ∨ b = "[")
               ∧ numeral d1 ∧ numeral d2 ∧ head_is is_digit u = false
               ∧ g = (int d1, int d2)
               ∧ n = consumed s (skip_opt "]" u).
Proof.
  assert (∀ t, match req_digits t with
               | Some (d1, v) =>
                   match strip_prefix ".." v with
                   | Some x =>
                       let (d2, u) := span is_digit x in
                       match d2 with
                       | "" => None
                       | String _ _ =>
                           Some (int d1, int d2, consumed s (skip_opt "]" u))
                       end
                   | None => None
                   end
               | None => None
               end = Some (g, n) →
               ∃ d1 d2 u, t = "REQ-" +:+ d1 +:+ ".." +:+ d2 +:+ u
                          ∧ numeral d1 ∧ numeral d2
                          ∧ head_is is_digit u = false
                          ∧ g = (int d1, int d2)
                          ∧ n = consumed s (skip_opt "]" u)) as Hbody.
  { intros t. destruct (req_digits t) as [[d1 v]|] eqn:Hr; [|done].
    apply req_digits_spec in Hr as (-> & Hd1 & _).
    destruct (strip_prefix ".." v) as [x|] eqn:Hv; [|done].
    apply strip_prefix_spec in Hv as ->.
    destruct (span is_digit x) as [d2 u] eqn:Hx.
    apply span_spec in Hx as (-> & Hd2 & Hu).
    destruct d2 as [|c d2]; [done|]. intros [= <- <-].
    exists d1, (String c d2), u. by split_and!. }
  unfold range_pat. intros [H|(r & -> & H)]%opt_bracket_some.
  - apply Hbody in H as (d1 & d2 & u & -> & ?). exists "", d1, d2, u.
    split_and!; naive_solver.
  - apply Hbody in H as (d1 & d2 & u & -> & ?). exists "[", d1, d2, u.
    split_and!; naive_solver.
Qed.

End complete_scan.

Section exact_extraction.
Import ReqCheck.

Lemma no_R_app a b :
  all_chars (λ c, negb (Ascii.eqb c "R")) a →
  all_chars (λ c, negb (Ascii.eqb c "R")) b →
  all_chars (λ c, negb (Ascii.eqb c "R")) (a +:+ b).
Proof. intros Ha Hb. rewrite all_chars_app. by apply andb_True. Qed.

Lemma no_R_bracket br :
  br = "" ∨ br = String "]" "" → all_chars (λ c, negb (Ascii.eqb c "R")) br.
Proof. by intros [->| ->]. Qed.

Lemma single_pat_R_shape prev s g n :
  single_pat prev s = Some (g, n) →
  ∃ b z w, s = b +:+ String "R" (z +:+ w) ∧ (b = "" ∨ b = "[")
           ∧ all_chars (λ c, negb (Ascii.eqb c "R")) z
           ∧ n = String.length b + 1 + String.length z.
Proof.
  intros (b & d & u & -> & Hb & [_ Hd] & _ & _ & ->)%single_pat_shape.
  destruct (skip_opt_split "]" u) as (br & Hu & _ & Hbr).
  exists b, ("EQ-" +:+ d +:+ br), (skip_opt "]" u). split_and!; [|done| |].
  - rewrite Hu at 1. f_equal.
    change ("REQ-" +:+ ?x) with (String "R" ("EQ-" +:+ x)).
    by rewrite !app_assoc_s.
  - apply (no_R_app "EQ-"); [done|].
    apply no_R_app; [by apply digits_no_R|by apply no_R_bracket].
  - unfold consumed. rewrite Hu at 1. rewrite !length_app_s. simpl. lia.
Qed.

Lemma range_pat_R_shape prev s g n :
  range_pat prev s = Some (g, n) →
  ∃ b z w, s = b +:+ String "R" (z +:+ w) ∧ (b = "" ∨ b = "[")
           ∧ all_chars (λ c, negb (Ascii.eqb c "R")) z
           ∧ n = String.length b + 1 + String.length z.
Proof.
  intros (b & d1 & d2 & u & -> & Hb & [_ Hd1] & [_ Hd2] & _ & _ & ->)%range_pat_shape.
  destruct (skip_opt_split "]" u) as (br & Hu & _ & Hbr).
  exists b, ("EQ-" +:+ d1 +:+ ".." +:+ d2 +:+ br), (skip_opt "]" u).
  split_and!; [|done| |].
  - rewrite Hu at 1. f_equal.
    change ("REQ-" +:+ ?x) with (String "R" ("EQ-" +:+ x)).
    by rewrite !app_assoc_s.
  - apply (no_R_app "EQ-"); [done|].
    apply no_R_app; [by apply digits_no_R|]. apply (no_R_app ".."); [done|].
    apply no_R_app; [by apply digits_no_R|by apply no_R_bracket].
  - unfold consumed. rewrite Hu at 1. rewrite !length_app_s. simpl. lia.
Qed.

Lemma single_pat_here prev d post :
  numeral d → head_is is_digit post = false →
  ∃ n, single_pat prev ("REQ-" +:+ d +:+ post) = Some (int d, n).
Proof.
  intros Hd Hp. unfold single_pat. rewrite opt_bracket_req.
  rewrite req_digits_numeral by done. by eexists.
Qed.

Lemma single_pat_bracket prev d post g n :
  numeral d → head_is is_digit post = false →
  single_pat prev (String "[" ("REQ-" +:+ d +:+ post)) = Some (g, n) → g = int d.
Proof.
  intros Hd Hp. unfold single_pat. cbn [opt_bracket].
  rewrite req_digits_numeral by done. by intros [= <- _].
Qed.

Lemma range_pat_here prev d1 d2 post :
  numeral d1 → numeral d2 → head_is is_digit post = false →
  ∃ n, range_pat prev ("REQ-" +:+ d1 +:+ ".." +:+ d2 +:+ post)
       = Some ((int d1, int d2), n).
Proof.
  intros H1 [Hn2 H2] Hp. unfold range_pat. rewrite opt_bracket_req.
  rewrite (req_digits_numeral d1 (".." +:+ d2 +:+ post)) by done.
  rewrite strip_prefix_app, span_app by done.
  destruct d2; [done|]. by eexists.
Qed.

Lemma range_pat_bracket prev d1 d2 post g n :
  numeral d1 → numeral d2 → head_is is_digit post = false →
  range_pat prev (String "[" ("REQ-" +:+ d1 +:+ ".." +:+ d2 +:+ post))
  = Some (g, n) → g = (int d1, int d2).
Proof.
  intros H1 [Hn2 H2] Hp. unfold range_pat. cbn [opt_bracket].
  rewrite (req_digits_numeral d1 (".." +:+ d2 +:+ post)) by done.
  rewrite strip_prefix_app, span_app by done.
  destruct d2; [done|]. by intros [= <- _].
Qed.

Lemma single_complete pre d post :
  numeral d → head_is is_digit post = false →
  int d ∈ finditer single_pat (pre +:+ "REQ-" +:+ d +:+ post).
Proof.
  intros Hd Hp. unfold finditer.
  change ("REQ-" +:+ d +:+ post) with (String "R" ("EQ-" +:+ d) +:+ post).
  apply finditer_from_complete; [| |apply single_pat_R_shape|lia].
  - intros prev. by apply single_pat_here.
  - intros prev g n. by apply single_pat_bracket.
Qed.

Lemma range_token_assoc d1 d2 post :
  String "R" ("EQ-" +:+ d1 +:+ ".." +:+ d2) +:+ post
  = "REQ-" +:+ d1 +:+ ".." +:+ d2 +:+ post.
Proof.
  change ("REQ-" +:+ ?x) with (String "R" ("EQ-" +:+ x)).
  rewrite app_cons_s. f_equal. by rewrite !app_assoc_s.
Qed.

Lemma range_complete pre d1 d2 post :
  numeral d1 → numeral d2 → head_is is_digit post = false →
  (int d1, int d2)
  ∈ finditer range_pat (pre +:+ "REQ-" +:+ d1 +:+ ".." +:+ d2 +:+ post).
Proof.
  intros H1 H2 Hp. unfold finditer. rewrite <- range_token_assoc.
  apply finditer_from_complete; [| |apply range_pat_R_shape|lia].
  - intros prev. rewrite range_token_assoc. by apply range_pat_here.
  - intros prev g n. rewrite range_token_assoc. by apply range_pat_bracket.
Qed.

Lemma single_sound text n :
  n ∈ finditer single_pat text →
  ∃ pre d post, text = pre +:+ "REQ-" +:+ d +:+ post ∧ numeral d
                ∧ head_is is_digit post = false ∧ n = int d.
Proof.
  intros (p & pre & t & k & -> & Hm)%finditer_from_elem.
  apply single_pat_shape in Hm as (b & d & u & -> & _ & Hd & Hu & -> & _).
  exists (pre +:+ b), d, u. split_and!; try done. by rewrite !app_assoc_s.
Qed.

Lemma range_sound text a b :
  (a, b) ∈ finditer range_pat text →
  ∃ pre d1 d2 post, text = pre +:+ "REQ-" +:+ d1 +:+ ".." +:+ d2 +:+ post
                    ∧ numeral d1 ∧ numeral d2
                    ∧ head_is is_digit post = false
                    ∧ a = int d1 ∧ b = int d2.
Proof.
  intros (p & pre & t & k & -> & Hm)%finditer_from_elem.
  apply range_pat_shape in Hm
    as (br & d1 & d2 & u & -> & _ & H1 & H2 & Hu & [= -> ->] & _).
  exists (pre +:+ br), d1, d2, u. split_and!; try done. by rewrite !app_assoc_s.
Qed.

End exact_extraction.

(** C2, amended: no range token is ever reported.  With reversed bounds
    the token is matched and expands to no identifier: the CI script keeps
    the start ordinal alone, which the pattern for single identifiers
    finds, and compose_validate adds no key.  A token in which a bound does
    not begin with a digit, or in which the digits of the first bound are
    followed by something other than the two dots, is not matched by the
    range patterns, and compose_validate keeps the text as one key.  A
    second bound that goes on after its digits is read as those digits. *)
Theorem C2_malformed_range_is_silent (k d1 d2 x : string) :
  k ≠ "" → all_chars is_upper k → numeral d1 → numeral d2 →
  head_is is_digit x = false →
  (int d2 < int d1 →
   finditer ReqCheck.range_pat ("REQ-" +:+ d1 +:+ ".." +:+ d2) = [(int d1, int d2)]
   ∧ ReqCheck.range_ordinals ("REQ-" +:+ d1 +:+ ".." +:+ d2) = []
   ∧ ReqCheck.parse_ids ("REQ-" +:+ d1 +:+ ".." +:+ d2) = {[int d1]}
   ∧ Compose.ref_keys (k +:+ "-" +:+ d1 +:+ ".." +:+ d2) = [])
  ∧ ReqCheck.range_pat None ("REQ-" +:+ x) = None
  ∧ ReqCheck.range_pat None ("REQ-" +:+ d1 +:+ ".." +:+ x) = None
  ∧ Compose.range_match (k +:+ "-" +:+ x) = None
  ∧ Compose.range_match (k +:+ "-" +:+ d1 +:+ ".." +:+ x) = None
  ∧ Compose.ref_keys (k +:+ "-" +:+ x) = [k +:+ "-" +:+ x]
  ∧ Compose.ref_keys (k +:+ "-" +:+ d1 +:+ ".." +:+ x)
    = [k +:+ "-" +:+ d1 +:+ ".." +:+ x]
  ∧ (strip_prefix ".." x = None →
     ReqCheck.range_pat None ("REQ-" +:+ d1 +:+ x) = None
     ∧ Compose.range_match (k +:+ "-" +:+ d1 +:+ x) = None
     ∧ Compose.ref_keys (k +:+ "-" +:+ d1 +:+ x) = [k +:+ "-" +:+ d1 +:+ x])
  ∧ (int d1, int d2)
    ∈ finditer ReqCheck.range_pat ("REQ-" +:+ d1 +:+ ".." +:+ d2 +:+ x)
  ∧ (∀ n, int d1 ≤ n ≤ int d2 →
       n ∈ ReqCheck.parse_ids ("REQ-" +:+ d1 +:+ ".." +:+ d2 +:+ x))
  ∧ Compose.range_match (k +:+ "-" +:+ d1 +:+ ".." +:+ d2 +:+ x)
    = Some (k, int d1, int d2)
  ∧ Compose.ref_keys (k +:+ "-" +:+ d1 +:+ ".." +:+ d2 +:+ x)
    = Compose.ref_keys (k +:+ "-" +:+ d1 +:+ ".." +:+ d2).
Proof.
  intros Hk Hu H1 H2 Hx.
  assert (Compose.range_match (k +:+ "-" +:+ x) = None) as Hm1.
  { unfold Compose.range_match. rewrite span_app by done.
    destruct k as [|c k]; [done|].
    change ("-" +:+ x) with (String "-" x). cbv beta iota.
    destruct x as [|c' x]; [done|]. simpl in *. by rewrite Hx. }
  assert (Compose.range_match (k +:+ "-" +:+ d1 +:+ ".." +:+ x) = None) as Hm2.
  { unfold Compose.range_match. rewrite span_app by done.
    destruct k as [|c k]; [done|].
    change ("-" +:+ ?y) with (String "-" y). cbv beta iota.
    destruct H1 as [Hn1 Hd1]. rewrite span_app by done.
    destruct d1 as [|c1 d1]; [done|]. rewrite strip_prefix_app.
    destruct x as [|c' x]; [done|]. simpl in *. by rewrite Hx. }
  assert (strip_prefix ".." x = None →
          Compose.range_match (k +:+ "-" +:+ d1 +:+ x) = None) as Hm3.
  { intros Hdots. unfold Compose.range_match. rewrite span_app by done.
    destruct k as [|c k]; [done|].
    change ("-" +:+ ?y) with (String "-" y). cbv beta iota.
    destruct H1 as [Hn1 Hd1]. rewrite span_app by done.
    destruct d1 as [|c1 d1]; [done|]. by rewrite Hdots. }
  assert (Compose.range_match (k +:+ "-" +:+ d1 +:+ ".." +:+ d2 +:+ x)
          = Some (k, int d1, int d2)) as Hm4.
  { unfold Compose.range_match. rewrite span_app by done.
    destruct k as [|c k]; [done|].
    change ("-" +:+ ?y) with (String "-" y). cbv beta iota.
    destruct H1 as [Hn1 Hd1]. rewrite span_app by done.
    destruct d1 as [|c1 d1]; [done|]. rewrite strip_prefix_app.
    destruct H2 as [Hn2 Hd2]. rewrite span_app by done.
    by destruct d2. }
  split_and!.
  - intros Hlt.
    assert (ReqCheck.range_ordinals ("REQ-" +:+ d1 +:+ ".." +:+ d2) = []) as Hr.
    { unfold ReqCheck.range_ordinals. rewrite range_pat_token by done.
      simpl. unfold ReqCheck.range_incl.
      by replace (int d2 + 1 - int d1) with 0 by lia. }
    split_and!.
    + by apply range_pat_token.
    + done.
    + unfold ReqCheck.parse_ids, ReqCheck.single_ordinals.
      rewrite Hr, single_pat_token by done. set_solver.
    + unfold Compose.ref_keys. rewrite range_match_token by done.
      unfold Compose.range_incl.
      by replace (int d2 + 1 - int d1) with 0 by lia.
  - unfold ReqCheck.range_pat. rewrite opt_bracket_req.
    unfold ReqCheck.req_digits. rewrite strip_prefix_app.
    destruct x as [|c x]; [done|]. simpl in *. by rewrite Hx.
  - unfold ReqCheck.range_pat. rewrite opt_bracket_req.
    rewrite (req_digits_numeral d1 (".." +:+ x)) by done.
    rewrite strip_prefix_app.
    destruct x as [|c x]; [done|]. simpl in *. by rewrite Hx.
  - done.
  - done.
  - unfold Compose.ref_keys. by rewrite Hm1.
  - unfold Compose.ref_keys. by rewrite Hm2.
  - intros Hdots. split_and!.
    + unfold ReqCheck.range_pat. rewrite opt_bracket_req.
      rewrite (req_digits_numeral d1 x) by done. by rewrite Hdots.
    + by apply Hm3.
    + unfold Compose.ref_keys. by rewrite Hm3.
  - by apply (range_complete "").
  - intros n Hn. unfold ReqCheck.parse_ids. apply elem_of_union_r.
    apply elem_of_list_to_set. unfold ReqCheck.range_ordinals.
    apply list_elem_of_bind. exists (int d1, int d2).
    split; [|by apply (range_complete "")].
    unfold ReqCheck.range_incl. apply elem_of_seq. lia.
  - done.
  - unfold Compose.ref_keys. by rewrite Hm4, range_match_token.
Qed.

Lemma C2_witness :
  "REQ" ≠ "" ∧ all_chars is_upper "REQ" ∧ numeral "12" ∧ numeral "07"
  ∧ head_is is_digit "x" = false ∧ int "07" < int "12"
  ∧ strip_prefix ".." "x" = None
  ∧ ReqCheck.parse_ids ("REQ-" +:+ "12" +:+ ".." +:+ "07") = {[int "12"]}
  ∧ Compose.ref_keys ("REQ" +:+ "-" +:+ "12" +:+ ".." +:+ "07") = []
  ∧ Compose.ref_keys ("REQ" +:+ "-" +:+ "12" +:+ "x")
    = ["REQ" +:+ "-" +:+ "12" +:+ "x"]
  ∧ Compose.ref_keys ("REQ" +:+ "-" +:+ "12" +:+ ".." +:+ "07" +:+ "x")
    = Compose.ref_keys ("REQ" +:+ "-" +:+ "12" +:+ ".." +:+ "07").
Proof.
  assert (int "07" < int "12") as Hlt by (vm_compute; lia).
  pose proof (C2_malformed_range_is_silent "REQ" "12" "07" "x"
                ltac:(done) I ltac:(done) ltac:(done) eq_refl)
    as (Hrev & _ & _ & _ & _ & _ & _ & Hdots & _ & _ & _ & Hpre).
  destruct (Hrev Hlt) as (_ & _ & Hp & Hc).
  destruct (Hdots eq_refl) as (_ & _ & Hk).
  split_and!; [done|done|done|done|done|exact Hlt|done|exact Hp|exact Hc|exact Hk|exact Hpre].
Defined.

(** The CI script extracts exactly what stands in the text: an ordinal is in
    [parse_ids] of a text if and only if the text holds REQ- followed by a
    full run of digits that reads as the ordinal, or REQ-A..B with full runs
    of digits A and B and the ordinal between them.  Brackets and the text
    around an occurrence make no difference, and no occurrence is lost. *)
Theorem parse_ids_exact (text : string) (n : nat) :
  n ∈ ReqCheck.parse_ids text
  ↔ (∃ pre d post,
       text = pre +:+ "REQ-" +:+ d +:+ post ∧ numeral d
       ∧ head_is is_digit post = false ∧ n = int d)
    ∨ (∃ pre d1 d2 post,
         text = pre +:+ "REQ-" +:+ d1 +:+ ".." +:+ d2 +:+ post
         ∧ numeral d1 ∧ numeral d2 ∧ head_is is_digit post = false
         ∧ int d1 ≤ n ≤ int d2).
Proof.
  unfold ReqCheck.parse_ids, ReqCheck.single_ordinals, ReqCheck.range_ordinals.
  rewrite elem_of_union, !elem_of_list_to_set, list_elem_of_bind. split.
  - intros [Hs|([a b] & Hn & Hr)]; [left; by apply single_sound|right].
    apply range_sound in Hr as (pre & d1 & d2 & post & -> & H1 & H2 & Hp & -> & ->).
    exists pre, d1, d2, post. split_and!; try done;
      unfold ReqCheck.range_incl in Hn; apply elem_of_seq in Hn; lia.
  - intros [(pre & d & post & -> & Hd & Hp & ->)
           |(pre & d1 & d2 & post & -> & H1 & H2 & Hp & Hn)].
    + left. by apply single_complete.
    + right. exists (int d1, int d2). split; [|by apply range_complete].
      unfold ReqCheck.range_incl. apply elem_of_seq. lia.
Qed.

(** ** The fixer run again *)

Section fixer_again.
Import Headers.

Lemma no_linebreak_single_line p :
  all_chars (λ c, negb (is_linebreak c)) p → single_line p.
Proof.
  unfold single_line. induction p as [|c p IH]; [done|]. cbn [all_chars].
  intros [Hc Hp]%andb_True. apply andb_True. split; [|by apply IH].
  unfold is_newline. destruct (Ascii.eqb c LF) eqn:H1.
  { apply Ascii.eqb_eq in H1 as ->. done. }
  destruct (Ascii.eqb c CR) eqn:H2; [|done].
  apply Ascii.eqb_eq in H2 as ->. done.
Qed.

Lemma splitlines_head e r :
  all_chars (λ c, negb (is_linebreak c)) e →
  ∃ rest, splitlines (e +:+ String LF r) = e :: rest.
Proof.
  induction e as [|c e IH]; intros He.
  - change ("" +:+ String LF r) with (String LF r). cbn [splitlines].
    rewrite linebreak_LF. by eexists.
  - cbn [all_chars] in He. apply andb_True in He as [Hc He].
    rewrite app_cons_s. cbn [splitlines].
    apply negb_True, Is_true_false in Hc. rewrite Hc.
    destruct (IH He) as [rest ->]. by eexists.
Qed.

Lemma strip_expected p : strip (expected p) = expected p.
Proof.
  unfold strip. rewrite expected_shape.
  set (a := String "<" ("!-- " +:+ p +:+ " --")).
  assert (lstrip (a +:+ ">") = a +:+ ">") as -> by done.
  by apply rstrip_keeps.
Qed.

Lemma expected_no_linebreak p :
  all_chars (λ c, negb (is_linebreak c)) p →
  all_chars (λ c, negb (is_linebreak c)) (expected p).
Proof.
  intros Hp. unfold expected. rewrite !all_chars_app.
  apply andb_True. split; [done|]. apply andb_True. by split.
Qed.

Lemma fix_file_again p raw new :
  all_chars (λ c, negb (is_linebreak c)) p →
  fix_file p raw = Some new → fix_file p new = None.
Proof.
  intros Hp [t ->]%fix_file_head. unfold fix_file, read.
  change (NL +:+ t) with (String LF t).
  rewrite universal_newlines_line
    by by apply expected_single_line, no_linebreak_single_line.
  destruct (splitlines_head (expected p) (universal_newlines t)) as [rest ->];
    [by apply expected_no_linebreak|].
  rewrite strip_expected. by rewrite decide_False by by intros ?.
Qed.

Lemma lstrip_all_space a b : lstrip a = "" → lstrip (a +:+ b) = lstrip b.
Proof.
  induction a as [|c a IH]; [done|]. rewrite app_cons_s. cbn [lstrip].
  destruct (is_space c); [apply IH|done].
Qed.

Lemma strip_newline l0 : strip (l0 +:+ NL) = strip l0.
Proof.
  destruct (decide (strip l0 = "")) as [He|Hne]; [|by apply strip_app_newline].
  rewrite He. unfold strip in *.
  destruct (lstrip l0) as [|c r] eqn:Hl.
  - by rewrite lstrip_all_space.
  - rewrite lstrip_app by by rewrite Hl. rewrite Hl.
    by rewrite rstrip_app_newline.
Qed.

Lemma expected_nonempty p : expected p ≠ "".
Proof. done. Qed.

Lemma fix_file_none_iff p raw :
  ordinary_breaks raw → (fix_file p raw = None ↔ check_file p raw = true).
Proof.
  intros Hb. split; [by apply check_file_unchanged|].
  intros Hc. apply bool_decide_eq_true in Hc. unfold readline in Hc.
  unfold fix_file. destruct (splitlines (read raw)) as [|l0 rest] eqn:Hs.
  - apply splitlines_nil in Hs. rewrite Hs in Hc. by destruct (expected_nonempty p).
  - destruct (first_line_of_splitlines _ _ _ (read_lf_breaks _ Hb) Hs) as [Hf|Hf];
      rewrite Hf in Hc; [|rewrite strip_newline in Hc];
      by rewrite decide_False by by intros ?.
Qed.

End fixer_again.

(** Running the fixer again changes nothing: a file it has rewritten is left
    alone by the next run, for every path without a line boundary in it; so
    a second run over the tree leaves every file as the first run left it
    and reports no file fixed. *)
Theorem fixer_idempotent (tree : list (string * string)) :
  Forall (λ '(p, _), all_chars (λ c, negb (is_linebreak c)) p) tree →
  Headers.fix_headers (Headers.fix_headers tree) = Headers.fix_headers tree
  ∧ HeaderTools.fixed_count (Headers.fix_headers tree) = 0
  ∧ HeaderTools.fix_headers_output (Headers.fix_headers tree)
    = ["Total files fixed: 0"].
Proof.
  intros Hp.
  assert (HeaderTools.fix_report (Headers.fix_headers tree) = []
          ∧ Headers.fix_headers (Headers.fix_headers tree)
            = Headers.fix_headers tree) as [Hrep Hfix].
  { induction Hp as [|[p raw] tree Hp _ [IH1 IH2]]; [done|].
    unfold Headers.fix_headers, HeaderTools.fix_report in *.
    cbn [fmap list_fmap omap list_omap].
    change (list_fmap _ _ ?f tree) with (f <$> tree).
    change (list_fmap _ _ ?f (?g <$> tree)) with (f <$> (g <$> tree)).
    change (list_omap _ _ ?f ?l) with (omap f l).
    rewrite IH1, IH2. destruct (Headers.is_md p) eqn:Hmd; cbv beta iota;
      rewrite Hmd; [|done].
    destruct (Headers.fix_file p raw) as [new|] eqn:Hf; cbn [default id].
    - apply fix_file_again in Hf; [|done]. by rewrite Hf.
    - by rewrite Hf. }
  split_and!; [done| |].
  - unfold HeaderTools.fixed_count. by rewrite Hrep.
  - unfold HeaderTools.fix_headers_output, HeaderTools.fixed_count.
    by rewrite Hrep.
Qed.

Lemma fixer_idempotent_witness :
  Forall (λ '(p, _), all_chars (λ c, negb (is_linebreak c)) p)
    [("_blueprint/a.md", "# A"); ("_blueprint/notes.txt", "todo")]
  ∧ HeaderTools.fixed_count
      (Headers.fix_headers
         [("_blueprint/a.md", "# A"); ("_blueprint/notes.txt", "todo")]) = 0.
Proof.
  assert (Forall (λ '(p, _), all_chars (λ c, negb (is_linebreak c)) p)
            [("_blueprint/a.md", "# A"); ("_blueprint/notes.txt", "todo")])
    as HF by (by repeat constructor).
  split; [exact HF|].
  by apply (fixer_idempotent
              [("_blueprint/a.md", "# A"); ("_blueprint/notes.txt", "todo")]).
Defined.

(** For a file whose line boundaries are line feeds and carriage returns,
    the fixer rewrites it exactly when the checker refuses it. *)
Theorem fixer_rewrites_what_checker_refuses (rel_path raw : string) :
  ordinary_breaks raw →
  (Headers.fix_file rel_path raw = None ↔ Headers.check_file rel_path raw = true).
Proof. apply fix_file_none_iff. Qed.

Lemma fixer_rewrites_what_checker_refuses_witness :
  ordinary_breaks "# Title"
  ∧ (Headers.fix_file "a.md" "# Title" = None
     ↔ Headers.check_file "a.md" "# Title" = true).
Proof.
  split; [done|]. by apply (fixer_rewrites_what_checker_refuses "a.md" "# Title").
Defined.

Lemma fix_then_check_tree_witness :
  Forall (λ '(p, raw), single_line p ∧ ordinary_breaks raw)
    [("_blueprint/a.md", "# A"); ("_blueprint/b.md", "")]
  ∧ Headers.check_headers
      (Headers.fix_headers [("_blueprint/a.md", "# A"); ("_blueprint/b.md", "")])
    = true.
Proof.
  assert (Forall (λ '(p, raw), single_line p ∧ ordinary_breaks raw)
            [("_blueprint/a.md", "# A"); ("_blueprint/b.md", "")])
    as HF by (by repeat constructor).
  split; [exact HF|].
  by apply (fix_then_check_tree
              [("_blueprint/a.md", "# A"); ("_blueprint/b.md", "")]).
Defined.

(** ** The placeholder rule, line by line *)

Section placeholder_facts.
Import NaCheck.

Lemma contains_spec p s :
  contains p s = true ↔ ∃ a b, s = a +:+ p +:+ b.
Proof.
  split.
  - induction s as [|c s IH]; cbn [contains]; unfold startswith.
    + destruct (strip_prefix p "") as [r|] eqn:Hr; [|done].
      apply strip_prefix_spec in Hr. intros _. by exists "", r.
    + destruct (strip_prefix p (String c s)) as [r|] eqn:Hr.
      * apply strip_prefix_spec in Hr. intros _. by exists "", r.
      * cbn [orb]. intros (a & b & ->)%IH. by exists (String c a), b.
  - intros (a & b & ->). induction a as [|c a IH].
    + change ("" +:+ ?x) with x.
      destruct (p +:+ b) as [|c r] eqn:Hpb; cbn [contains]; unfold startswith;
        rewrite <- Hpb, strip_prefix_app; done.
    + rewrite app_cons_s. cbn [contains]. rewrite IH. apply orb_true_r.
Qed.

Lemma has_dec_spec s :
  has_dec s = true ↔ ∃ a d b, numeral d ∧ s = a +:+ "[DEC-" +:+ d +:+ "]" +:+ b.
Proof.
  split.
  - induction s as [|c s IH]; [done|]. cbn [has_dec].
    destruct (strip_prefix "[DEC-" (String c s)) as [r|] eqn:Hr.
    + apply strip_prefix_spec in Hr.
      destruct (span is_digit r) as [d t] eqn:Hd.
      apply span_spec in Hd as (-> & Hdig & _).
      destruct d as [|c1 d]; [cbn [orb]; intros (a & d' & b & Hn & ->)%IH;
                              by exists (String c a), d', b|].
      destruct t as [|c2 t];
        [cbn [orb]; intros (a & d' & b & Hn & ->)%IH; by exists (String c a), d', b|].
      destruct (ascii_dec c2 "]") as [->|Hne].
      * intros _. exists "", (String c1 d), t. split; [done|]. by rewrite Hr.
      * assert (match c2 with "]"%char => true | _ => false end = false) as Hc2
          by (by destruct c2 as [[] [] [] [] [] [] [] []]).
        intros H. assert (has_dec s = true) as Hs.
        { revert H. destruct c2 as [[] [] [] [] [] [] [] []]; try done. }
        apply IH in Hs as (a & d' & b & Hn & ->). by exists (String c a), d', b.
    + cbn [orb]. intros (a & d' & b & Hn & ->)%IH. by exists (String c a), d', b.
  - intros (a & d & b & [Hne Hd] & ->). induction a as [|c a IH].
    + change ("" +:+ ?x) with x.
      change ("[DEC-" +:+ ?x) with (String "[" ("DEC-" +:+ x)).
      cbn [has_dec]. change (String "[" ("DEC-" +:+ ?x)) with ("[DEC-" +:+ x).
      rewrite strip_prefix_app, span_app by done. by destruct d.
    + rewrite app_cons_s. cbn [has_dec]. rewrite IH. apply orb_true_r.
Qed.

Lemma scan_lines_report f idx lines :
  Sorted lt (lineno <$> scan_lines f idx lines)
  ∧ Forall (λ v, idx < lineno v ≤ idx + length lines ∧ file v = f)
      (scan_lines f idx lines)
  ∧ length (scan_lines f idx lines)
    = length (filter (λ l, flagged l = true) lines).
Proof.
  revert idx. induction lines as [|line rest IH]; intros idx.
  - split_and!; [constructor|constructor|done].
  - destruct (IH (S idx)) as (Hs & Hf & Hl). cbn [scan_lines].
    assert (Forall (λ v, idx < lineno v ≤ idx + length (line :: rest) ∧ file v = f)
              (scan_lines f (S idx) rest)) as Hf'.
    { eapply Forall_impl; [exact Hf|]. intros v [? ?]. simpl. split; [lia|done]. }
    destruct (flagged line) eqn:Hfl.
    + rewrite filter_cons_True by done. cbn [app fmap list_fmap length].
      split_and!.
      * constructor; [done|].
        destruct (scan_lines f (S idx) rest) as [|v vs] eqn:Hsc; constructor.
        apply Forall_cons in Hf as [[Hv _] _]. simpl. lia.
      * constructor; [|done]. simpl. split; [lia|done].
      * by rewrite Hl.
    + rewrite filter_cons_False by (by rewrite Hfl). by cbn [app].
Qed.

End placeholder_facts.

(** C6, as stated: a line whose N/A stands inside inline code is never
    flagged, and a line with an N/A outside inline code, without the marker
    and without a DEC token gives a violation.  The script looks for N/A
    directly between two backticks anywhere on the line: it reports the
    line whose N/A stands in a longer code span, and passes over the line
    that holds one N/A in plain text and the quoted form elsewhere. *)
Lemma C6_counterexample :
  "`Latency N/A`" = "`" +:+ "Latency " +:+ "N/A" +:+ "`"
  ∧ contains "`" "Latency " = false
  ∧ NaCheck.violations [("ch3.md", ["`Latency N/A`"])]
    = [NaCheck.Violation "ch3.md" 1 "`Latency N/A`"]
  ∧ ReqCheck.status (NaCheck.main [("ch3.md", ["`Latency N/A`"])]) = 1
  ∧ "Latency: N/A (see `N/A` in ch2)" = "Latency: " +:+ "N/A" +:+ " (see `N/A` in ch2)"
  ∧ contains "`" "Latency: " = false
  ∧ contains "[TEST-02]" "Latency: N/A (see `N/A` in ch2)" = false
  ∧ NaCheck.has_dec "Latency: N/A (see `N/A` in ch2)" = false
  ∧ NaCheck.violations [("ch3.md", ["Latency: N/A (see `N/A` in ch2)"])] = []
  ∧ ReqCheck.status
      (NaCheck.main [("ch3.md", ["Latency: N/A (see `N/A` in ch2)"])]) = 0.
Proof. split_and!; by vm_compute. Qed.

(** C6, amended: a line in which N/A stands, and neither the marker
    [TEST-02], nor N/A directly between two backticks, nor a bracketed DEC-
    followed by digits and the closing bracket, gives exactly one violation,
    at the number of that line and with its stripped text, and the run ends
    with status 1; a line with such a DEC token, with N/A directly between
    two backticks, with the marker, or without N/A gives none. *)
Theorem C6_placeholder_flagged_once (f : string) (lines : list string)
    (i : nat) (line : string) :
  lines !! i = Some line →
  ((∃ a b, line = a +:+ "N/A" +:+ b) →
   ¬ (∃ a b, line = a +:+ "[TEST-02]" +:+ b) →
   ¬ (∃ a b, line = a +:+ "`N/A`" +:+ b) →
   ¬ (∃ a d b, numeral d ∧ line = a +:+ "[DEC-" +:+ d +:+ "]" +:+ b) →
   filter (λ v, NaCheck.lineno v = i + 1) (NaCheck.violations [(f, lines)])
   = [NaCheck.Violation f (i + 1) (strip line)]
   ∧ ReqCheck.status (NaCheck.main [(f, lines)]) = 1)
  ∧ (¬ (∃ a b, line = a +:+ "N/A" +:+ b)
     ∨ (∃ a b, line = a +:+ "[TEST-02]" +:+ b)
     ∨ (∃ a b, line = a +:+ "`N/A`" +:+ b)
     ∨ (∃ a d b, numeral d ∧ line = a +:+ "[DEC-" +:+ d +:+ "]" +:+ b) →
     filter (λ v, NaCheck.lineno v = i + 1) (NaCheck.violations [(f, lines)])
     = []).
Proof.
  intros Hi.
  assert (NaCheck.violations [(f, lines)] = NaCheck.scan_lines f 0 lines) as Hv.
  { unfold NaCheck.violations. cbn. apply app_nil_r. }
  assert (filter (λ v, NaCheck.lineno v = i + 1) (NaCheck.violations [(f, lines)])
          = if NaCheck.flagged line
            then [NaCheck.Violation f (i + 1) (strip line)] else []) as Hf.
  { rewrite Hv, scan_lines_at. rewrite decide_True by lia.
    replace (i + 1 - 0 - 1) with i by lia. by rewrite Hi. }
  assert (NaCheck.flagged line = true
          ↔ (∃ a b, line = a +:+ "N/A" +:+ b)
            ∧ ¬ (∃ a b, line = a +:+ "[TEST-02]" +:+ b)
            ∧ ¬ (∃ a b, line = a +:+ "`N/A`" +:+ b)
            ∧ ¬ (∃ a d b, numeral d ∧ line = a +:+ "[DEC-" +:+ d +:+ "]" +:+ b))
    as Hfl.
  { rewrite flagged_true, <- !contains_spec, <- has_dec_spec.
    rewrite !not_true_iff_false. done. }
  split.
  - intros H1 H2 H3 H4.
    assert (NaCheck.flagged line = true) as Hc by (by apply Hfl).
    rewrite Hc in Hf. split; [done|]. unfold NaCheck.main.
    destruct (NaCheck.violations [(f, lines)]) as [|v vs]; [done|done].
  - intros Hc. rewrite Hf.
    destruct (NaCheck.flagged line); [|done].
    destruct Hfl as [Hfl _]. destruct (Hfl eq_refl) as (H1 & H2 & H3 & H4).
    destruct Hc as [Hc|[Hc|[Hc|Hc]]]; done.
Qed.

Lemma C6_witness :
  ["# Audio"; "Latency budget: N/A"; "Codec: N/A [DEC-7]"] !! 1
    = Some "Latency budget: N/A"
  ∧ (∃ a b, "Latency budget: N/A" = a +:+ "N/A" +:+ b)
  ∧ ¬ (∃ a b, "Latency budget: N/A" = a +:+ "[TEST-02]" +:+ b)
  ∧ ¬ (∃ a b, "Latency budget: N/A" = a +:+ "`N/A`" +:+ b)
  ∧ ¬ (∃ a d b, numeral d ∧ "Latency budget: N/A" = a +:+ "[DEC-" +:+ d +:+ "]" +:+ b)
  ∧ filter (λ v, NaCheck.lineno v = 2)
      (NaCheck.violations
         [("ch3.md", ["# Audio"; "Latency budget: N/A"; "Codec: N/A [DEC-7]"])])
    = [NaCheck.Violation "ch3.md" 2 "Latency budget: N/A"]
  ∧ ReqCheck.status
      (NaCheck.main
         [("ch3.md", ["# Audio"; "Latency budget: N/A"; "Codec: N/A [DEC-7]"])])
    = 1.
Proof.
  assert (∃ a b, "Latency budget: N/A" = a +:+ "N/A" +:+ b) as H1
    by (by exists "Latency budget: ", "").
  assert (¬ (∃ a b, "Latency budget: N/A" = a +:+ "[TEST-02]" +:+ b)) as H2
    by (intros H%contains_spec; by vm_compute in H).
  assert (¬ (∃ a b, "Latency budget: N/A" = a +:+ "`N/A`" +:+ b)) as H3
    by (intros H%contains_spec; by vm_compute in H).
  assert (¬ (∃ a d b, numeral d
                      ∧ "Latency budget: N/A" = a +:+ "[DEC-" +:+ d +:+ "]" +:+ b))
    as H4 by (intros H%has_dec_spec; by vm_compute in H).
  split_and!; [done|exact H1|exact H2|exact H3|exact H4| |];
    by apply (C6_placeholder_flagged_once "ch3.md"
                ["# Audio"; "Latency budget: N/A"; "Codec: N/A [DEC-7]"] 1
                "Latency budget: N/A" eq_refl).
Defined.

(** The placeholder rule in terms of the text of the line: a line is reported
    exactly when N/A stands in it and neither the marker [TEST-02], nor N/A
    between two backticks, nor a bracketed DEC- with at least one digit and
    nothing else before the closing bracket. *)
Theorem placeholder_rule_exact (line : string) :
  NaCheck.flagged line = true
  ↔ (∃ a b, line = a +:+ "N/A" +:+ b)
    ∧ ¬ (∃ a b, line = a +:+ "[TEST-02]" +:+ b)
    ∧ ¬ (∃ a b, line = a +:+ "`N/A`" +:+ b)
    ∧ ¬ (∃ a d b, numeral d ∧ line = a +:+ "[DEC-" +:+ d +:+ "]" +:+ b).
Proof.
  rewrite flagged_true, <- !contains_spec, <- has_dec_spec.
  destruct (contains "N/A" line), (contains "[TEST-02]" line),
    (contains "`N/A`" line), (NaCheck.has_dec line); naive_solver.
Qed.

(** The violations of a file come in the order of its lines, with strictly
    ascending line numbers between 1 and the number of lines, one for each
    flagged line; and the run ends with status 0 exactly when no line of any
    file is flagged, with status 1 otherwise. *)
Theorem placeholder_report (files : list (string * list string))
    (f : string) (lines : list string) :
  Sorted lt (NaCheck.lineno <$> NaCheck.scan_lines f 0 lines)
  ∧ Forall (λ v, 1 ≤ NaCheck.lineno v ≤ length lines ∧ NaCheck.file v = f)
      (NaCheck.scan_lines f 0 lines)
  ∧ length (NaCheck.scan_lines f 0 lines)
    = length (filter (λ l, NaCheck.flagged l = true) lines)
  ∧ (ReqCheck.status (NaCheck.main files) = 0
     ↔ Forall (λ '(_, ls), Forall (λ l, NaCheck.flagged l = false) ls) files)
  ∧ (ReqCheck.status (NaCheck.main files) = 0
     ∨ ReqCheck.status (NaCheck.main files) = 1).
Proof.
  destruct (scan_lines_report f 0 lines) as (Hs & Hf & Hl).
  split_and!; [done| |done| |].
  - eapply Forall_impl; [exact Hf|]. intros v [? ?]. split; [lia|done].
  - unfold NaCheck.main.
    assert (NaCheck.violations files = []
            ↔ Forall (λ '(_, ls), Forall (λ l, NaCheck.flagged l = false) ls) files)
      as Hiff.
    { unfold NaCheck.violations. induction files as [|[f' ls] files IH].
      - split; [constructor|done].
      - cbn [mbind list_bind]. rewrite Forall_cons, <- IH.
        change (list_bind _ _ ?g files) with (files ≫= g).
        split.
        + intros [H1 H2]%app_eq_nil. split; [|done].
          apply length_zero_iff_nil in H1.
          destruct (scan_lines_report f' 0 ls) as (_ & _ & Hlen).
          rewrite H1 in Hlen. symmetry in Hlen.
          apply length_zero_iff_nil in Hlen.
          apply Forall_forall. intros l Hin.
          destruct (NaCheck.flagged l) eqn:Hfl; [|done].
          assert (l ∈ filter (λ l, NaCheck.flagged l = true) ls) as Hl'
            by (by apply list_elem_of_filter).
          rewrite Hlen in Hl'. by apply elem_of_nil in Hl'.
        + intros [H1 H2]. rewrite H2, app_nil_r.
          apply length_zero_iff_nil.
          destruct (scan_lines_report f' 0 ls) as (_ & _ & ->).
          apply length_zero_iff_nil, elem_of_nil_inv.
          intros l [Hfl Hin]%list_elem_of_filter.
          rewrite Forall_forall in H1. specialize (H1 l Hin). congruence. }
    rewrite <- Hiff. by destruct (NaCheck.violations files).
  - unfold NaCheck.main. destruct (NaCheck.violations files); [by left|by right].
Qed.

(** ** Every key of compose_validate *)

Section compose_exact.
Import Compose.

Lemma last_char_some c s : ∃ x, last_char (String c s) = Some x.
Proof.
  revert c. induction s as [|c' s IH]; intros c; [by exists c|].
  destruct (IH c') as [x Hx]. exists x. by rewrite <- Hx.
Qed.

Lemma last_char_cons c s :
  last_char (String c s) = match last_char s with Some x => Some x | None => Some c end.
Proof.
  destruct s as [|c' s]; [done|].
  destruct (last_char_some c' s) as [x Hx]. rewrite Hx. by rewrite <- Hx.
Qed.

Lemma last_char_None s : last_char s = None → s = "".
Proof.
  induction s as [|c s IH]; [done|]. rewrite last_char_cons.
  by destruct (last_char s).
Qed.

Lemma finditer_from_elem_prev {A} (m : matcher A) prev k s x :
  x ∈ finditer_from m prev k s →
  ∃ pre t n, s = pre +:+ t
             ∧ m (match last_char pre with Some c => Some c | None => prev end) t
               = Some (x, n).
Proof.
  revert prev k. induction s as [|c s IH]; intros prev k; cbn [finditer_from].
  - by intros ?%elem_of_nil.
  - assert (∀ k', x ∈ finditer_from m (Some c) k' s →
              ∃ pre t n, String c s = pre +:+ t
                ∧ m (match last_char pre with Some c => Some c | None => prev end) t
                  = Some (x, n)) as Hrec.
    { intros k' (pre & t & n & -> & Hm)%IH.
      exists (String c pre), t, n. split; [done|].
      rewrite last_char_cons. by destruct (last_char pre). }
    destruct k as [|k]; [|apply Hrec].
    destruct (m prev (String c s)) as [[g n]|] eqn:Hm; [|apply Hrec].
    intros [->|Hx]%elem_of_cons; [|by eapply Hrec].
    by exists "", (String c s), n.
Qed.

Lemma id_pat_shape p t key n :
  id_pat p t = Some (key, n) →
  (match p with Some c => is_word c | None => false end) = false
  ∧ ∃ k d post, t = k +:+ "-" +:+ d +:+ post ∧ key = k +:+ "-" +:+ d
                ∧ k ≠ "" ∧ all_chars is_upper k ∧ numeral d
                ∧ head_is is_word post = false
                ∧ n = String.length k + 1 + String.length d.
Proof.
  intros Hm. split.
  { unfold id_pat in Hm. by destruct (match p with Some _ => _ | None => _ end). }
  pose proof Hm as Hm'. apply id_pat_spec in Hm
    as (k & d & post & -> & -> & Hk & Hu & [Hn Hd] & Hw).
  exists k, d, post. split_and!; try done.
  revert Hm'. unfold id_pat.
  destruct (match p with Some _ => _ | None => _ end); [done|].
  rewrite span_app by done. destruct k as [|c k]; [done|].
  change ("-" +:+ ?x) with (String "-" x). cbv beta iota.
  assert (head_is is_digit post = false) as Hdp.
  { destruct post as [|c' post]; [done|]. simpl in *.
    revert Hw. by destruct c' as [[] [] [] [] [] [] [] []]. }
  rewrite span_app by done. destruct d as [|c1 d]; [done|].
  destruct (match post with "" => _ | String _ _ => _ end); [done|].
  intros [= <-]. unfold consumed. rewrite !length_app_s. simpl.
  rewrite ?length_app_s. lia.
Qed.

Lemma id_pat_here p k d post :
  (match p with Some c => is_word c | None => false end) = false →
  k ≠ "" → all_chars is_upper k → numeral d → head_is is_word post = false →
  ∃ n, id_pat p (k +:+ "-" +:+ d +:+ post) = Some (k +:+ "-" +:+ d, n).
Proof.
  intros Hp Hk Hu [Hn Hd] Hw. unfold id_pat. rewrite Hp.
  rewrite span_app by done. destruct k as [|c k]; [done|].
  change ("-" +:+ ?x) with (String "-" x). cbv beta iota.
  assert (head_is is_digit post = false) as Hdp.
  { destruct post as [|c' post]; [done|]. simpl in *.
    revert Hw. by destruct c' as [[] [] [] [] [] [] [] []]. }
  rewrite span_app by done. destruct d as [|c1 d]; [done|].
  assert ((match post with "" => false | String c2 _ => is_word c2 end) = false)
    as -> by (by destruct post).
  by eexists.
Qed.

Lemma upper_is_word c : is_upper c = true → is_word c = true.
Proof. by destruct c as [[] [] [] [] [] [] [] []]. Qed.

Lemma digit_not_upper d :
  all_chars is_digit d → all_chars (λ c, negb (is_upper c)) d.
Proof.
  induction d as [|c d IH]; [done|]. cbn [all_chars].
  intros [Hc Hd]%andb_True. apply andb_True. split; [|by apply IH].
  by destruct c as [[] [] [] [] [] [] [] []].
Qed.

Lemma first_upper z w x u y :
  all_chars (λ c, negb (is_upper c)) z → is_upper u = true →
  x +:+ String u y = z +:+ w → String.length z ≤ String.length x.
Proof.
  intros Hz Hu. revert x. induction z as [|c z IH]; intros x Heq; [simpl; lia|].
  cbn [all_chars] in Hz. apply andb_True in Hz as [Hc Hz].
  destruct x as [|c' x].
  - change ("" +:+ String u y) with (String u y) in Heq.
    rewrite app_cons_s in Heq. injection Heq as <- _. by rewrite Hu in Hc.
  - rewrite !app_cons_s in Heq. injection Heq as _ Heq.
    simpl. specialize (IH Hz x Heq). lia.
Qed.

Lemma upper_prefix_split pre x k1 w :
  all_chars is_upper k1 → pre ≠ "" → word_before pre = false →
  pre +:+ x = k1 +:+ w →
  ∃ pre2, pre = k1 +:+ pre2 ∧ w = pre2 +:+ x.
Proof.
  revert pre. induction k1 as [|a k1 IH]; intros pre Hu Hne Hwb Heq.
  - by exists pre.
  - destruct pre as [|a' pre]; [done|]. rewrite !app_cons_s in Heq.
    injection Heq as -> Heq. cbn [all_chars] in Hu.
    apply andb_True in Hu as [Ha Hu].
    destruct pre as [|b pre].
    + unfold word_before in Hwb. cbn [last_char] in Hwb.
      apply Is_true_true, upper_is_word in Ha. congruence.
    + destruct (IH (String b pre)) as (pre2 & -> & ->); try done.
      by exists pre2.
Qed.

Lemma finditer_from_head {A} (m : matcher A) prev s g n :
  m prev s = Some (g, n) → s ≠ "" → g ∈ finditer_from m prev 0 s.
Proof.
  intros Hm Hs. destruct s as [|c s]; [done|]. cbn [finditer_from].
  rewrite Hm. by left.
Qed.

Lemma id_complete key k d post :
  key = k +:+ "-" +:+ d →
  k ≠ "" → all_chars is_upper k → numeral d → head_is is_word post = false →
  ∀ pre prev skip, skip ≤ String.length pre →
    (match last_char pre with
     | Some c => is_word c
     | None => match prev with Some c => is_word c | None => false end
     end) = false →
    key ∈ finditer_from id_pat prev skip (pre +:+ k +:+ "-" +:+ d +:+ post).
Proof.
  intros -> Hk Hu Hd Hw. induction pre as [|c pre IH]; intros prev skip Hs Hb.
  - simpl in Hs. assert (skip = 0) as -> by lia. change ("" +:+ ?x) with x.
    destruct (id_pat_here prev k d post) as [n Hm]; try done.
    apply (finditer_from_head _ _ _ _ n); [done|]. by destruct k.
  - rewrite (app_cons_s c pre). cbn [finditer_from]. simpl in Hs.
    assert (∀ sk, sk ≤ String.length pre →
              k +:+ "-" +:+ d
              ∈ finditer_from id_pat (Some c) sk (pre +:+ k +:+ "-" +:+ d +:+ post))
      as Hrec.
    { intros sk Hsk. apply IH; [done|]. rewrite last_char_cons in Hb.
      by destruct (last_char pre). }
    destruct skip as [|skip]; [|apply Hrec; lia].
    destruct (id_pat prev (String c (pre +:+ k +:+ "-" +:+ d +:+ post)))
      as [[g n]|] eqn:Hm; [|apply Hrec; lia].
    right. apply Hrec.
    apply id_pat_shape in Hm
      as (_ & k1 & d1 & post1 & Heq & _ & _ & Hu1 & [_ Hd1] & _ & ->).
    rewrite <- app_cons_s in Heq.
    assert (word_before (String c pre) = false) as Hwb.
    { unfold word_before. rewrite last_char_cons in *.
      by destruct (last_char pre). }
    apply upper_prefix_split in Heq as (pre2 & Hpre & Heq); try done.
    destruct k as [|u k]; [done|].
    cbn [all_chars] in Hu. apply andb_True in Hu as [Hu _].
    assert (pre2 +:+ String u (k +:+ "-" +:+ d +:+ post)
            = ("-" +:+ d1) +:+ post1) as Heq2.
    { rewrite app_assoc_s. by rewrite Heq. }
    apply first_upper in Heq2; [| |by apply Is_true_true].
    + apply (f_equal String.length) in Hpre. rewrite length_app_s in Hpre.
      rewrite length_app_s in Heq2. simpl in Hpre, Heq2. lia.
    + change ("-" +:+ d1) with (String "-" d1). cbn [all_chars].
      apply andb_True. split; [done|by apply digit_not_upper].
Qed.

End compose_exact.

(** compose_validate takes from a text exactly the keys that stand in it: a
    key is in [get_all_ids_from_text] of a text if and only if the text
    holds it as a run of capital letters, a hyphen and a run of digits with
    no word character before it and none behind it. *)
Theorem compose_keys_exact (text key : string) :
  key ∈ Compose.get_all_ids_from_text text
  ↔ ∃ pre k d post,
      text = pre +:+ k +:+ "-" +:+ d +:+ post ∧ key = k +:+ "-" +:+ d
      ∧ k ≠ "" ∧ all_chars is_upper k ∧ numeral d
      ∧ word_before pre = false ∧ head_is is_word post = false.
Proof.
  unfold Compose.get_all_ids_from_text, finditer.
  rewrite elem_of_list_to_set. split.
  - intros (pre & t & n & -> & Hm)%finditer_from_elem_prev.
    apply id_pat_shape in Hm
      as (Hp & k & d & post & -> & -> & Hk & Hu & Hd & Hw & _).
    exists pre, k, d, post. split_and!; try done.
    unfold word_before. by destruct (last_char pre).
  - intros (pre & k & d & post & -> & -> & Hk & Hu & Hd & Hb & Hw).
    apply id_complete; [done..|lia|].
    unfold word_before in Hb. by destruct (last_char pre).
Qed.

(** ** Leading zeros *)

Section leading_zeros.

Lemma int_zeros z d : all_chars (λ c, Ascii.eqb c "0") z → int (z +:+ d) = int d.
Proof.
  unfold int. induction z as [|c z IH]; [done|]. cbn [all_chars].
  intros [Hc Hz]%andb_True. apply Is_true_true, Ascii.eqb_eq in Hc as ->.
  rewrite app_cons_s. cbn [int_from]. by apply IH.
Qed.

Lemma zeros_numeral z d :
  all_chars (λ c, Ascii.eqb c "0") z → numeral d → numeral (z +:+ d).
Proof.
  intros Hz [Hn Hd]. split.
  - destruct z; [done|]. by rewrite app_cons_s.
  - rewrite all_chars_app. apply andb_True. split; [|done].
    clear Hn Hd. induction z as [|c z IH]; [done|]. cbn [all_chars] in *.
    apply andb_True in Hz as [Hc Hz]. apply andb_True. split; [|by apply IH].
    by apply Is_true_true, Ascii.eqb_eq in Hc as ->.
Qed.

Lemma pretty_N_go_head x s :
  (0 < x)%N → ∃ c r, pretty_N_go x s = String c r ∧ c ≠ "0"%char.
Proof.
  revert s. induction (N.lt_wf_0 x) as [x _ IH]; intros s Hx.
  rewrite pretty_N_go_step by done.
  destruct (decide (x `div` 10 = 0)%N) as [Hz|Hnz].
  - rewrite Hz, pretty_N_go_0. eexists _, _. split; [done|].
    assert (x < 10)%N as Hlt by (by apply N.div_small_iff in Hz).
    rewrite N.mod_small by done.
    assert (x = 1 ∨ x = 2 ∨ x = 3 ∨ x = 4 ∨ x = 5 ∨ x = 6
            ∨ x = 7 ∨ x = 8 ∨ x = 9)%N as Hc by lia.
    repeat destruct Hc as [->|Hc]; try subst x; done.
  - apply IH; [apply N.div_lt; lia|by apply N.neq_0_lt_0].
Qed.

Lemma str_head n : str n = "0" ∨ ∃ c r, str n = String c r ∧ c ≠ "0"%char.
Proof.
  unfold str, pretty, pretty_nat, pretty, pretty_N.
  case_decide as Hn; [by left|]. right. apply pretty_N_go_head. lia.
Qed.

Lemma str_no_double_zero n d : str n ≠ "00" +:+ d.
Proof.
  destruct (str_head n) as [->|(c & r & -> & Hc)]; [done|].
  intros [= -> _]. done.
Qed.

Lemma str02_no_double_zero n d : d ≠ "" → str02 n ≠ "00" +:+ d.
Proof.
  intros Hd. unfold str02. destruct (n <? 10); [|apply str_no_double_zero].
  change ("0" +:+ str n) with (String "0" (str n)).
  change ("00" +:+ d) with (String "0" (String "0" d)). intros [= Heq].
  destruct (str_head n) as [H0|(c & r & Hr & Hc)].
  - rewrite H0 in Heq. injection Heq as <-. done.
  - rewrite Hr in Heq. injection Heq as -> _. done.
Qed.

End leading_zeros.

(** The CI script reads any number of leading zeros away: a requirement
    declared with some zeros before its digits is covered by a reference
    with any other number of zeros before the same digits. *)
Theorem ci_leading_zeros (z1 z2 d : string) :
  all_chars (λ c, Ascii.eqb c "0") z1 → all_chars (λ c, Ascii.eqb c "0") z2 →
  numeral d →
  ReqCheck.parse_ids ("REQ-" +:+ z1 +:+ d) = ReqCheck.parse_ids ("REQ-" +:+ z2 +:+ d)
  ∧ ReqCheck.status
      (ReqCheck.main ["REQ-" +:+ z1 +:+ d] (Some ("REQ-" +:+ z2 +:+ d))) = 0.
Proof.
  intros H1 H2 Hd.
  assert (ReqCheck.parse_ids ("REQ-" +:+ z1 +:+ d)
          = ReqCheck.parse_ids ("REQ-" +:+ z2 +:+ d)) as Heq.
  { rewrite !parse_ids_single_token by by apply zeros_numeral.
    by rewrite !int_zeros. }
  split; [done|]. apply main_status_0. unfold ReqCheck.missing_list.
  apply sorted_nil. unfold ReqCheck.defined_reqs. cbn [fmap list_fmap union_list foldr].
  rewrite Heq. set_solver.
Qed.

Lemma ci_leading_zeros_witness :
  all_chars (λ c, Ascii.eqb c "0") "000" ∧ all_chars (λ c, Ascii.eqb c "0") ""
  ∧ numeral "7"
  ∧ ReqCheck.parse_ids ("REQ-" +:+ "000" +:+ "7")
    = ReqCheck.parse_ids ("REQ-" +:+ "" +:+ "7").
Proof.
  split_and!; [done|done|done|].
  by apply (ci_leading_zeros "000" "" "7").
Defined.

(** In compose_validate a range in the checklist adds, for each ordinal, the
    key without padding and the key padded to two digits, and no other: a
    key whose digits start with two zeros and go on is never covered by a
    range. *)
Theorem compose_range_never_covers_padded (r k : string) (a b : nat)
    (key d : string) :
  Compose.range_match r = Some (k, a, b) →
  (key ∈ Compose.ref_keys r
   ↔ ∃ i, a ≤ i ≤ b ∧ (key = k +:+ "-" +:+ str i ∨ key = k +:+ "-" +:+ str02 i))
  ∧ (d ≠ "" → k +:+ "-" +:+ "00" +:+ d ∉ Compose.ref_keys r).
Proof.
  intros Hr.
  assert (∀ x, x ∈ Compose.ref_keys r
               ↔ ∃ i, a ≤ i ≤ b
                      ∧ (x = k +:+ "-" +:+ str i ∨ x = k +:+ "-" +:+ str02 i))
    as Hkeys.
  { intros x. unfold Compose.ref_keys. rewrite Hr, list_elem_of_bind.
    unfold Compose.range_incl. split.
    - intros (i & Hx & Hi%elem_of_seq). exists i. split; [lia|].
      apply elem_of_cons in Hx as [->|Hx]; [by left|].
      apply elem_of_cons in Hx as [->|Hx]; [by right|].
      by apply elem_of_nil in Hx.
    - intros (i & Hi & Hx). exists i. split; [|apply elem_of_seq; lia].
      destruct Hx as [->| ->]; [left|right; left]. }
  split; [apply Hkeys|]. intros Hd (i & _ & Hx)%Hkeys.
  destruct Hx as [Hx|Hx]; apply (inj (String.app k)) in Hx;
    change ("-" +:+ ?x) with (String "-" x) in Hx; injection Hx as Hx.
  - symmetry in Hx. by apply str_no_double_zero in Hx.
  - symmetry in Hx. by apply str02_no_double_zero in Hx.
Qed.

Lemma compose_range_never_covers_padded_witness :
  Compose.range_match "REQ-1..62" = Some ("REQ", 1, 62)
  ∧ ("1" ≠ "" → "REQ" +:+ "-" +:+ "00" +:+ "1" ∉ Compose.ref_keys "REQ-1..62").
Proof.
  split; [by vm_compute|].
  by apply (compose_range_never_covers_padded "REQ-1..62" "REQ" 1 62 "REQ-001" "1").
Defined.

(** ** What the fixer keeps *)

Section fixer_keeps.
Import Headers.

Lemma splitlines_no_breaks_upto n s :
  String.length s ≤ n →
  Forall (λ l, all_chars (λ c, negb (is_linebreak c)) l) (splitlines s).
Proof.
  revert s. induction n as [|n IH]; intros [|c r] Hlen; simpl in Hlen;
    try done; [lia|].
  cbn [splitlines]. destruct (is_linebreak c) eqn:Hc.
  - constructor; [done|]. destruct r as [|c2 r2]; [done|].
    destruct (Ascii.eqb c CR && Ascii.eqb c2 LF).
    + apply IH. simpl in Hlen. lia.
    + apply IH. lia.
  - assert (Forall (λ l, all_chars (λ c, negb (is_linebreak c)) l) (splitlines r))
      as Hr by (apply IH; lia).
    destruct (splitlines r) as [|l ls].
    + constructor; [|done]. cbn [all_chars]. by rewrite Hc.
    + apply Forall_cons in Hr as [Hl Hls]. constructor; [|done].
      cbn [all_chars]. by rewrite Hc.
Qed.

Lemma splitlines_no_breaks s :
  Forall (λ l, all_chars (λ c, negb (is_linebreak c)) l) (splitlines s).
Proof. by apply (splitlines_no_breaks_upto (String.length s)). Qed.

Lemma splitlines_line e r :
  all_chars (λ c, negb (is_linebreak c)) e →
  splitlines (e +:+ String LF r) = e :: splitlines r.
Proof.
  induction e as [|c e IH]; intros He.
  - change ("" +:+ String LF r) with (String LF r). cbn [splitlines].
    rewrite linebreak_LF. by destruct r.
  - cbn [all_chars] in He. apply andb_True in He as [Hc He].
    rewrite app_cons_s. cbn [splitlines].
    apply negb_True, Is_true_false in Hc. by rewrite Hc, (IH He).
Qed.

Lemma splitlines_join l :
  Forall (λ l, all_chars (λ c, negb (is_linebreak c)) l) l →
  l ≠ [] → splitlines (join NL l +:+ NL) = l.
Proof.
  induction 1 as [|x l Hx Hl IH]; [done|]. intros _.
  destruct l as [|y l].
  - cbn [join]. unfold NL. rewrite splitlines_line by done. done.
  - change (join NL (x :: y :: l)) with (x +:+ NL +:+ join NL (y :: l)).
    rewrite !app_assoc_s. change (NL +:+ ?t) with (String LF t).
    rewrite splitlines_line by done. by rewrite IH.
Qed.

Lemma read_join l :
  Forall (λ l, all_chars (λ c, negb (is_linebreak c)) l) l →
  read (join NL l +:+ NL) = join NL l +:+ NL.
Proof.
  unfold read. induction 1 as [|x l Hx Hl IH]; [done|].
  destruct l as [|y l].
  - cbn [join]. unfold NL.
    by rewrite universal_newlines_line by by apply no_linebreak_single_line.
  - change (join NL (x :: y :: l)) with (x +:+ NL +:+ join NL (y :: l)).
    rewrite !app_assoc_s. change (NL +:+ ?t) with (String LF t).
    rewrite universal_newlines_line by by apply no_linebreak_single_line.
    by rewrite IH.
Qed.

End fixer_keeps.

(** The lines of a document survive a write and a read: for lines without a
    line boundary in them, joining them with line feeds, ending with a line
    feed, reading the text back and splitting it gives the same lines; and
    no line that [splitlines] returns holds a line boundary. *)
Theorem lines_round_trip (l : list string) (s : string) :
  Forall (λ x, all_chars (λ c, negb (is_linebreak c)) x) l → l ≠ [] →
  Headers.splitlines (Headers.read (join NL l +:+ NL)) = l
  ∧ Forall (λ x, all_chars (λ c, negb (is_linebreak c)) x) (Headers.splitlines s).
Proof.
  intros Hl Hne. split; [|apply splitlines_no_breaks].
  rewrite read_join by done. by apply splitlines_join.
Qed.

Lemma lines_round_trip_witness :
  Forall (λ x, all_chars (λ c, negb (is_linebreak c)) x) ["# Title"; ""; "text"]
  ∧ ["# Title"; ""; "text"] ≠ []
  ∧ Headers.splitlines (Headers.read (join NL ["# Title"; ""; "text"] +:+ NL))
    = ["# Title"; ""; "text"].
Proof.
  assert (Forall (λ x, all_chars (λ c, negb (is_linebreak c)) x)
            ["# Title"; ""; "text"]) as HF by (by repeat constructor).
  split_and!; [exact HF|done|].
  by apply (lines_round_trip ["# Title"; ""; "text"] "" HF).
Defined.

(** The fixer loses no line of a document: reading back what it wrote for a
    file gives the expected header followed by the lines the file had; only a
    first line that looked like a comment is replaced by the header, and a
    blank line is put after the header when the old first line was not
    blank. *)
Theorem fixer_keeps_lines (rel_path raw new : string) :
  all_chars (λ c, negb (is_linebreak c)) rel_path →
  Headers.fix_file rel_path raw = Some new →
  Headers.splitlines (Headers.read new)
  = match Headers.splitlines (Headers.read raw) with
    | [] => [Headers.expected rel_path]
    | l0 :: rest =>
        if startswith (strip l0) "<!--" && Headers.endswith (strip l0) "-->"
        then Headers.expected rel_path :: rest
        else if bool_decide (strip l0 ≠ "")
             then Headers.expected rel_path :: "" :: l0 :: rest
             else Headers.expected rel_path :: l0 :: rest
    end.
Proof.
  intros Hp. unfold Headers.fix_file.
  pose proof (splitlines_no_breaks (Headers.read raw)) as Hold.
  pose proof (expected_no_linebreak _ Hp) as He.
  destruct (Headers.splitlines (Headers.read raw)) as [|l0 rest].
  - intros [= <-]. change (Headers.expected rel_path +:+ NL)
      with (join NL [Headers.expected rel_path] +:+ NL).
    rewrite read_join by by constructor. apply splitlines_join; [by constructor|done].
  - case_decide as Hne; [|done]. intros [= <-].
    apply Forall_cons in Hold as [Hl0 Hrest].
    destruct (startswith (strip l0) "<!--" && Headers.endswith (strip l0) "-->").
    + cbn [insert list_insert].
      rewrite read_join by by constructor.
      apply splitlines_join; [by constructor|done].
    + unfold Headers.list_insert_at. cbn [take drop app length lookup list_lookup default].
      change (1 <? S (S (length rest))) with true. cbn [andb].
      destruct (bool_decide (strip l0 ≠ "")); cbn [take drop app].
      * rewrite read_join by by repeat constructor.
        apply splitlines_join; [by repeat constructor|done].
      * rewrite read_join by by repeat constructor.
        apply splitlines_join; [by repeat constructor|done].
Qed.

Lemma fixer_keeps_lines_witness :
  all_chars (λ c, negb (is_linebreak c)) "_blueprint/a.md"
  ∧ Headers.fix_file "_blueprint/a.md" ("# A" +:+ NL +:+ "text")
    = Some ("<!-- _blueprint/a.md -->" +:+ NL +:+ NL +:+ "# A" +:+ NL +:+ "text" +:+ NL)
  ∧ Headers.splitlines
      (Headers.read
         ("<!-- _blueprint/a.md -->" +:+ NL +:+ NL +:+ "# A" +:+ NL +:+ "text" +:+ NL))
    = ["<!-- _blueprint/a.md -->"; ""; "# A"; "text"].
Proof.
  assert (Headers.fix_file "_blueprint/a.md" ("# A" +:+ NL +:+ "text")
          = Some ("<!-- _blueprint/a.md -->" +:+ NL +:+ NL +:+ "# A" +:+ NL
                  +:+ "text" +:+ NL)) as HF by (by vm_compute).
  split_and!; [done|exact HF|].
  rewrite (fixer_keeps_lines "_blueprint/a.md" ("# A" +:+ NL +:+ "text") _
             I HF).
  by vm_compute.
Defined.

(** ** check_headers.py as a script *)

Section check_script.
Import Headers HeaderTools.

Lemma check_report_nil tree : check_headers tree = true → check_report tree = [].
Proof.
  unfold check_headers, check_report.
  induction tree as [|[p raw] tree IH]; [done|].
  cbn [forallb fmap list_fmap concat]. intros [H1 H2]%andb_true_iff.
  change (list_fmap _ _ ?f tree) with (f <$> tree). rewrite (IH H2), app_nil_r.
  destruct (is_md p); [|done]. unfold check_file_report. by rewrite H1.
Qed.

Lemma check_report_length tree :
  length (check_report tree)
  = 3 * length (filter (λ '(p, raw), is_md p = true ∧ check_file p raw = false) tree).
Proof.
  unfold check_report. induction tree as [|[p raw] tree IH]; [done|].
  cbn [fmap list_fmap concat]. change (list_fmap _ _ ?f tree) with (f <$> tree).
  rewrite length_app, IH, filter_cons. unfold check_file_report.
  case_decide as Hd.
  - destruct Hd as [-> ->]. simpl. lia.
  - destruct (is_md p); [|simpl; lia].
    destruct (check_file p raw); [simpl; lia|]. by destruct Hd.
Qed.

Lemma check_headers_false tree :
  check_headers tree = false →
  filter (λ '(p, raw), is_md p = true ∧ check_file p raw = false) tree ≠ [].
Proof.
  unfold check_headers. induction tree as [|[p raw] tree IH]; [done|].
  cbn [forallb]. rewrite filter_cons. intros H. case_decide as Hd; [done|].
  apply IH. apply andb_false_iff in H as [H|H]; [|done].
  destruct (is_md p); [|done]. by destruct Hd.
Qed.

Lemma check_script_compose rel_path raw :
  (ComposeMain.validate_header_rule rel_path raw).2 = false →
  (ComposeMain.validate_header_rule rel_path raw).1
  = check_file_report rel_path raw.
Proof.
  unfold ComposeMain.validate_header_rule, check_file_report, check_file.
  case_decide as H1; [|done]. case_decide as H2; [|done]. intros _.
  by rewrite bool_decide_eq_false_2.
Qed.

End check_script.

(** check_headers.py as a script ends with status 0 when every [.md] file of
    the walk starts with its header and then prints the OK line alone;
    otherwise it ends with status 1 after three lines for each refused file
    and no OK line after them.  When the header rule of compose_validate
    refuses a file, it prints the three lines that check_headers prints for
    it. *)
Theorem check_script_verdict (tree : list (string * string))
    (rel_path raw : string) :
  (ReqCheck.status (HeaderTools.check_main tree) = 0
   ↔ Forall (λ '(p, raw), Headers.is_md p = true → Headers.check_file p raw = true)
       tree)
  ∧ (ReqCheck.status (HeaderTools.check_main tree) = 0
     → ReqCheck.stdout (HeaderTools.check_main tree) = ["Markdown headers: OK"])
  ∧ (ReqCheck.status (HeaderTools.check_main tree) ≠ 0
     → ReqCheck.status (HeaderTools.check_main tree) = 1
       ∧ ReqCheck.stdout (HeaderTools.check_main tree)
         = HeaderTools.check_report tree
       ∧ HeaderTools.check_report tree ≠ []
       ∧ length (HeaderTools.check_report tree)
         = 3 * length (filter (λ '(p, raw), Headers.is_md p = true
                                            ∧ Headers.check_file p raw = false) tree))
  ∧ ((ComposeMain.validate_header_rule rel_path raw).2 = false →
     (ComposeMain.validate_header_rule rel_path raw).1
     = HeaderTools.check_file_report rel_path raw).
Proof.
  assert (Headers.check_headers tree = true
          ↔ Forall (λ '(p, raw), Headers.is_md p = true
                                 → Headers.check_file p raw = true) tree) as Hall.
  { unfold Headers.check_headers. induction tree as [|[p r] tree IH]; [done|].
    cbn [forallb]. rewrite andb_true_iff, Forall_cons, IH.
    destruct (Headers.is_md p); [|naive_solver]. naive_solver. }
  unfold HeaderTools.check_main.
  destruct (Headers.check_headers tree) eqn:Hc; cbn [ReqCheck.status ReqCheck.stdout].
  - split_and!.
    + split; [intros _; by apply Hall|done].
    + intros _. by rewrite check_report_nil.
    + done.
    + apply check_script_compose.
  - split_and!.
    + split; [done|]. intros H%Hall. done.
    + done.
    + intros _. split_and!; [done|done| |apply check_report_length].
      intros Hnil. pose proof (check_report_length tree) as Hlen.
      rewrite Hnil in Hlen. apply check_headers_false in Hc.
      destruct (filter _ tree); [done|]. simpl in Hlen. lia.
    + apply check_script_compose.
Qed.

(** A tree that the fixer has gone over passes the check script: it prints
    the OK line alone and ends with status 0, for paths without a line
    break and files whose only line boundaries are line feeds and carriage
    returns. *)
Theorem fix_then_check_script (tree : list (string * string)) :
  Forall (λ '(p, raw), single_line p ∧ ordinary_breaks raw) tree →
  HeaderTools.check_main (Headers.fix_headers tree)
  = ReqCheck.Outcome ["Markdown headers: OK"] 0.
Proof.
  intros H%fix_then_check_tree. unfold HeaderTools.check_main.
  by rewrite H, check_report_nil.
Qed.

Lemma fix_then_check_script_witness :
  Forall (λ '(p, raw), single_line p ∧ ordinary_breaks raw)
    [("_blueprint/a.md", "# A"); ("_blueprint/b.md", "<!-- old -->" +:+ NL +:+ "B")]
  ∧ HeaderTools.check_main
      (Headers.fix_headers
         [("_blueprint/a.md", "# A");
          ("_blueprint/b.md", "<!-- old -->" +:+ NL +:+ "B")])
    = ReqCheck.Outcome ["Markdown headers: OK"] 0.
Proof.
  assert (Forall (λ '(p, raw), single_line p ∧ ordinary_breaks raw)
            [("_blueprint/a.md", "# A");
             ("_blueprint/b.md", "<!-- old -->" +:+ NL +:+ "B")]) as HF
    by (by repeat constructor).
  split; [exact HF|].
  by apply (fix_then_check_script
              [("_blueprint/a.md", "# A");
               ("_blueprint/b.md", "<!-- old -->" +:+ NL +:+ "B")]).
Defined.

(** ** Coverage by identifier in compose_validate *)

(** compose_validate never passes over a requirement that is not covered: if
    a chapter declares a key of the identifier REQ n and no key of the
    checklist stands for that identifier, a key of REQ n is listed as
    missing and the rule fails, for every order in which the set is walked.
    And it lists only keys that a chapter declares. *)
Theorem compose_uncovered_identifier_flagged
    (iter : gset string → list string) (trace : bool)
    (chapters : list string) (cl : option Compose.checklist) (n : nat) :
  (∀ X : gset string, iter X ≡ₚ elements X) →
  ((∃ r, r ∈ Compose.reqs chapters ∧ Compose.identifier_of r = Some ("REQ", n)) →
   (∀ c, c ∈ Compose.checklist_refs cl → Compose.identifier_of c ≠ Some ("REQ", n)) →
   (∃ r, r ∈ Compose.missing_checklist iter chapters cl
         ∧ Compose.identifier_of r = Some ("REQ", n))
   ∧ (Compose.validate_traceability iter trace chapters cl).2 = false)
  ∧ (∀ r, r ∈ Compose.missing_checklist iter chapters cl → r ∈ Compose.reqs chapters).
Proof.
  intros Hiter. split.
  - intros (r & Hr & Hid) Hnone.
    assert (r ∈ Compose.missing_checklist iter chapters cl) as Hm.
    { apply elem_of_missing_checklist; [done|]. split; [done|].
      intros Hc. by apply (Hnone r Hc). }
    split; [by exists r|].
    destruct (Compose.validate_traceability iter trace chapters cl).2 eqn:Hv;
      [|done].
    apply validate_traceability_ok in Hv. rewrite Hv in Hm.
    by apply elem_of_nil in Hm.
  - intros r Hr. by apply elem_of_missing_checklist in Hr as [Hr _].
Qed.

Lemma compose_uncovered_identifier_flagged_witness :
  (∀ X : gset string, elements X ≡ₚ elements X)
  ∧ (∃ r, r ∈ Compose.missing_checklist elements ["## [REQ-2] Audio"]
              (Some (Compose.Checklist
                       [Compose.Milestone [Compose.Step ["REQ-1"; "TEST-2"]]]))
          ∧ Compose.identifier_of r = Some ("REQ", 2)).
Proof.
  split; [done|].
  apply (compose_uncovered_identifier_flagged elements false ["## [REQ-2] Audio"]
           (Some (Compose.Checklist
                    [Compose.Milestone [Compose.Step ["REQ-1"; "TEST-2"]]])) 2);
    [done| |].
  - exists "REQ-2". split; [|done]. apply (bool_decide_unpack _). by vm_compute.
  - intros c Hc.
    assert (Compose.checklist_refs
              (Some (Compose.Checklist
                       [Compose.Milestone [Compose.Step ["REQ-1"; "TEST-2"]]]))
            = {["REQ-1"; "TEST-2"]}) as Heq by (by vm_compute).
    rewrite Heq in Hc.
    apply elem_of_union in Hc as [->%elem_of_singleton| ->%elem_of_singleton];
      by vm_compute.
Defined.
